(** * byteblock: framing of aligned byte blocks

    A shallow embedding of the Go package [byteblock] and the proofs of its
    framing properties.  Two variants of the package are embedded:

    - the incremental writer ([NewBlock] / [Append] / [Write]) together with
      the slicer, at top level;
    - the standalone one-shot writer of [byteblock.go], in [Module Standalone].

    Go's [int64] is a [Z] with the wrap-around written out; a [[]byte] is a
    [list byte]; a run-time panic is an explicit outcome. *)

From Stdlib Require Import ZArith Lia.
From Stdlib Require Import Strings.Byte.
From stdpp Require Import base list.

Local Open Scope Z_scope.

(** ** Go run-time model *)

(** The panics the package can raise. *)
Inductive panic : Type :=
| IndexOutOfRange
| SliceBoundsOutOfRange
| MakeSliceLenOutOfRange.

(** A call either returns or panics. *)
Inductive outcome (A : Type) : Type :=
| Returns (a : A)
| Panics (p : panic).
Arguments Returns {A} a.
Arguments Panics {A} p.

#[global] Instance outcome_ret : MRet outcome := @Returns.
#[global] Instance outcome_bind : MBind outcome := fun A B k m =>
  match m with
  | Returns a => k a
  | Panics p => Panics p
  end.
#[global] Instance outcome_fmap : FMap outcome := fun A B f m =>
  match m with
  | Returns a => Returns (f a)
  | Panics p => Panics p
  end.

(** *** int64 *)

Definition min_int64 : Z := - 2 ^ 63.
Definition max_int64 : Z := 2 ^ 63 - 1.

Definition in_int64 (z : Z) : Prop := min_int64 <= z <= max_int64.

(** Two's complement wrap-around of a mathematical integer to 64 bits. *)
Definition wrap64 (z : Z) : Z := (z + 2 ^ 63) mod 2 ^ 64 - 2 ^ 63.

Definition add64 (a b : Z) : Z := wrap64 (a + b).
Definition sub64 (a b : Z) : Z := wrap64 (a - b).
(** [a % b]: Go's remainder truncates towards zero. *)
Definition rem64 (a b : Z) : Z := Z.rem a b.
(** [a << k] on int64. *)
Definition shl64 (a k : Z) : Z := wrap64 (Z.shiftl a k).
(** [a >> k] on int64 is the arithmetic shift. *)
Definition sar64 (a k : Z) : Z := Z.shiftr a k.

(** [int64(len(data))] *)
Definition len64 {A} (data : list A) : Z := wrap64 (Z.of_nat (length data)).

(** *** byte *)

(** [byte(n)]: the low eight bits. *)
Definition byte_of_int64 (n : Z) : byte :=
  default x00 (Byte.of_N (Z.to_N (n mod 256))).

(** [int64(b)] *)
Definition int64_of_byte (b : byte) : Z := Z.of_N (Byte.to_N b).

(** [make([]byte, n)].  A negative length panics; the allocation limits of
    the Go runtime below the int range are not part of the model. *)
Definition make_bytes (n : Z) : outcome (list byte) :=
  if n <? 0 then Panics MakeSliceLenOutOfRange
  else Returns (replicate (Z.to_nat n) x00).

(** [data[lo:hi]] on a slice whose capacity is its length. *)
Definition subslice (data : list byte) (lo hi : Z) : outcome (list byte) :=
  if (0 <=? lo) && (lo <=? hi) && (hi <=? Z.of_nat (length data))
  then Returns (take (Z.to_nat (hi - lo)) (drop (Z.to_nat lo) data))
  else Panics SliceBoundsOutOfRange.

(** ** Codec *)

(** [for i := 0; i < 8; i++ { out[i] = byte(n); n >>= 8 }], with [left] the
    number of iterations still to run. *)
Fixpoint fillInt64_loop (left : nat) (i : nat) (n : Z) (out : list byte)
  : outcome (list byte) :=
  match left with
  | O => Returns out
  | S left' =>
      if (i <? length out)%nat
      then fillInt64_loop left' (S i) (sar64 n 8) (<[i := byte_of_int64 n]> out)
      else Panics IndexOutOfRange
  end.

Definition fillInt64 (n : Z) (out : list byte) : outcome (list byte) :=
  fillInt64_loop 8 0 n out.

(** [for i := 0; i < 8; i++ { n |= int64(data[i]) << uint(8*i) }] *)
Fixpoint readInt64_loop (left : nat) (i : nat) (data : list byte) (n : Z)
  : outcome Z :=
  match left with
  | O => Returns n
  | S left' =>
      match data !! i with
      | Some b =>
          readInt64_loop left' (S i) data
            (Z.lor n (shl64 (int64_of_byte b) (8 * Z.of_nat i)))
      | None => Panics IndexOutOfRange
      end
  end.

Definition readInt64 (data : list byte) : outcome Z :=
  readInt64_loop 8 0 data 0.

(** ** Aligner *)

Definition alignOffset (align pos : Z) : Z :=
  if align <=? 1 then 0
  else
    let offset := rem64 pos align in
    if offset =? 0 then 0
    else sub64 align offset.

(** ** Errors *)

Inductive error : Type :=
| ErrNewBlockBeforeFinish
| ErrWriteMoreThanRequested
| ErrNotEnoughBytes
| EOF                      (* io.EOF *)
| ErrSink (code : nat).    (* an error of the underlying io.Writer *)

(** ** Sinks: the io.Writer interface *)

(** [Write(p []byte) (n int, err error)], with the sink's state passed
    explicitly. *)
Class IoWriter (S : Type) : Type :=
  io_write : S -> list byte -> S * (Z * option error).

(** bytes.Buffer: every write appends the whole slice and succeeds. *)
Definition Buffer : Type := list byte.

#[global] Instance Buffer_write : IoWriter Buffer := fun buf p =>
  (buf ++ p, (Z.of_nat (length p), None)).

(** A sink of bounded capacity: it takes what still fits and reports a short
    write otherwise. *)
Record LimitedBuffer : Type := mkLimited { lb_bytes : list byte; lb_room : nat }.

#[global] Instance LimitedBuffer_write : IoWriter LimitedBuffer := fun s p =>
  if (length p <=? lb_room s)%nat
  then (mkLimited (lb_bytes s ++ p) (lb_room s - length p), (Z.of_nat (length p), None))
  else (mkLimited (lb_bytes s ++ take (lb_room s) p) 0,
        (Z.of_nat (lb_room s), Some (ErrSink 0))).

(** Any sink, watched: the second component keeps the bytes the sink
    reported as taken, in order. *)
Definition Recorded (S : Type) : Type := (S * list byte)%type.

#[global] Instance Recorded_write {S : Type} `{!IoWriter S} : IoWriter (Recorded S) :=
  fun s p =>
    let '(s', (n, e)) := io_write s.1 p in
    ((s', s.2 ++ take (Z.to_nat n) p), (n, e)).

(** ** Writer (incremental variant) *)

Module ByteBlockWriter.
Section writer.
Context {S : Type} `{!IoWriter S}.

Record t : Type := mk {
  writer : S;
  numBytesWritten : Z;
  numBytesLeft : Z;
  err : option error;
  stub : list byte            (* [8]byte *)
}.

Definition set_writer (s : S) (w : t) : t :=
  mk s (numBytesWritten w) (numBytesLeft w) (err w) (stub w).
Definition set_numBytesWritten (n : Z) (w : t) : t :=
  mk (writer w) n (numBytesLeft w) (err w) (stub w).
Definition set_numBytesLeft (n : Z) (w : t) : t :=
  mk (writer w) (numBytesWritten w) n (err w) (stub w).
Definition set_err (e : option error) (w : t) : t :=
  mk (writer w) (numBytesWritten w) (numBytesLeft w) e (stub w).
Definition set_stub (b : list byte) (w : t) : t :=
  mk (writer w) (numBytesWritten w) (numBytesLeft w) (err w) b.

Definition NewByteBlockWriter (s : S) : t :=
  mk s 0 0 None (replicate 8 x00).

Definition fillStub (n : Z) (w : t) : outcome t :=
  out ← fillInt64 n (stub w);
  mret (set_stub out w).

(** [n, err := w.writer.Write(data); w.numBytesWritten += int64(n);
    w.numBytesLeft -= int64(n); return err] *)
Definition rawWrite (data : list byte) (w : t) : t * option error :=
  let '(s, (n, e)) := io_write (writer w) data in
  let w := set_writer s w in
  let w := set_numBytesWritten (add64 (numBytesWritten w) n) w in
  let w := set_numBytesLeft (sub64 (numBytesLeft w) n) w in
  (w, e).

Definition NewBlock (align length : Z) (w : t) : outcome (t * option error) :=
  match err w with
  | Some e => mret (w, Some e)
  | None =>
    if 0 <? numBytesLeft w then
      let w := set_err (Some ErrNewBlockBeforeFinish) w in
      mret (w, err w)
    else
      (* Length *)
      w ← fillStub length w;
      let '(w, e) := rawWrite (stub w) w in
      let w := set_err e w in
      match err w with
      | Some e => mret (w, Some e)
      | None =>
        (* Offset *)
        let offset := alignOffset align (add64 (numBytesWritten w) 8) in
        w ← fillStub offset w;
        let '(w, e) := rawWrite (stub w) w in
        let w := set_err e w in
        match err w with
        | Some e => mret (w, Some e)
        | None =>
          (* Padding *)
          pad ← make_bytes offset;
          let '(w, e) := rawWrite pad w in
          let w := set_err e w in
          match err w with
          | Some e => mret (w, Some e)
          | None =>
            let w := set_numBytesLeft length w in
            mret (w, None)
          end
        end
      end
  end.

Definition Append (data : list byte) (w : t) : t * option error :=
  match err w with
  | Some e => (w, Some e)
  | None =>
    let length := len64 data in
    if numBytesLeft w <? length then
      let w := set_err (Some ErrWriteMoreThanRequested) w in
      (w, err w)
    else
      let '(w, e) := rawWrite data w in
      let w := set_err e w in
      match err w with
      | Some e => (w, Some e)
      | None => (w, None)
      end
  end.

(** A Go string is its bytes; the aliasing trick changes nothing here. *)
Definition AppendString (data : list byte) (w : t) : t * option error :=
  Append data w.

Definition Write (data : list byte) (align : Z) (w : t)
  : outcome (t * option error) :=
  '(w, e) ← NewBlock align (len64 data) w;
  let w := set_err e w in
  match err w with
  | Some e => mret (w, Some e)
  | None =>
    let '(w, e) := Append data w in
    let w := set_err e w in
    match err w with
    | Some e => mret (w, Some e)
    | None => mret (w, None)
    end
  end.

Definition WriteString (data : list byte) (align : Z) (w : t)
  : outcome (t * option error) :=
  '(w, e) ← NewBlock align (len64 data) w;
  let w := set_err e w in
  match err w with
  | Some e => mret (w, Some e)
  | None =>
    let '(w, e) := AppendString data w in
    let w := set_err e w in
    match err w with
    | Some e => mret (w, Some e)
    | None => mret (w, None)
    end
  end.
End writer.
Arguments t S : clear implicits.
Arguments fillStub : simpl never.
Arguments rawWrite : simpl never.
Arguments NewBlock : simpl never.
Arguments Append : simpl never.
Arguments Write : simpl never.
End ByteBlockWriter.

(** ** Slicer *)

Module ByteBlockSlicer.
Record t : Type := mk {
  data : list byte;
  numBytesSliced : Z;
  err : option error
}.

Definition set_numBytesSliced (n : Z) (r : t) : t := mk (data r) n (err r).
Definition set_err (e : option error) (r : t) : t :=
  mk (data r) (numBytesSliced r) e.

Definition NewByteBlockSlicer (data : list byte) : t := mk data 0 None.

Definition rawSlice (n : Z) (r : t) : outcome (t * (list byte * option error)) :=
  if len64 (data r) <? add64 (numBytesSliced r) n then
    mret (r, ([], Some ErrNotEnoughBytes))
  else
    d ← subslice (data r) (numBytesSliced r) (add64 (numBytesSliced r) n);
    let r := set_numBytesSliced (add64 (numBytesSliced r) n) r in
    mret (r, (d, None)).

Definition Slice (r : t) : outcome (t * (list byte * option error)) :=
  match err r with
  | Some e => mret (r, ([], Some e))
  | None =>
    if len64 (data r) <=? numBytesSliced r then mret (r, ([], Some EOF))
    else
      (* Length *)
      '(r, (b, e)) ← rawSlice 8 r;
      let r := set_err e r in
      match err r with
      | Some e => mret (r, ([], Some e))
      | None =>
        length ← readInt64 b;
        (* Offset *)
        '(r, (b, e)) ← rawSlice 8 r;
        let r := set_err e r in
        match err r with
        | Some e => mret (r, ([], Some e))
        | None =>
          offset ← readInt64 b;
          (* Padding *)
          '(r, (_, e)) ← rawSlice offset r;
          let r := set_err e r in
          match err r with
          | Some e => mret (r, ([], Some e))
          | None =>
            (* Data *)
            rawSlice length r
          end
        end
      end
  end.
Arguments rawSlice : simpl never.
Arguments Slice : simpl never.
End ByteBlockSlicer.

(** ** Writer (standalone one-shot variant, byteblock.go)

    Its [alignOffset], [readInt64] and slicer have the same text as above. *)

Module Standalone.
Definition intSize : Z := 8.

(** [out[i] = byte(n & 0xFF); n >>= 8] *)
Fixpoint fillInt64_loop (left : nat) (i : nat) (n : Z) (out : list byte)
  : outcome (list byte) :=
  match left with
  | O => Returns out
  | S left' =>
      if (i <? length out)%nat
      then fillInt64_loop left' (S i) (sar64 n 8)
             (<[i := byte_of_int64 (Z.land n 255)]> out)
      else Panics IndexOutOfRange
  end.

Definition fillInt64 (n : Z) (out : list byte) : outcome (list byte) :=
  fillInt64_loop (Z.to_nat intSize) 0 n out.

Module ByteBlockWriter.
Section writer.
Context {S : Type} `{!IoWriter S}.

Record t : Type := mk {
  writer : S;
  numBytesWritten : Z;
  err : option error;
  stub : list byte          (* [intSize]byte *)
}.

Definition set_writer (s : S) (w : t) : t :=
  mk s (numBytesWritten w) (err w) (stub w).
Definition set_numBytesWritten (n : Z) (w : t) : t :=
  mk (writer w) n (err w) (stub w).
Definition set_err (e : option error) (w : t) : t :=
  mk (writer w) (numBytesWritten w) e (stub w).
Definition set_stub (b : list byte) (w : t) : t :=
  mk (writer w) (numBytesWritten w) (err w) b.

Definition NewByteBlockWriter (s : S) : t :=
  mk s 0 None (replicate (Z.to_nat intSize) x00).

Definition fillStub (n : Z) (w : t) : outcome t :=
  out ← fillInt64 n (stub w);
  mret (set_stub out w).

Definition rawWrite (data : list byte) (w : t) : t * option error :=
  let '(s, (n, e)) := io_write (writer w) data in
  let w := set_writer s w in
  let w := set_numBytesWritten (add64 (numBytesWritten w) n) w in
  (w, e).

Definition Write (data : list byte) (align : Z) (w : t)
  : outcome (t * option error) :=
  match err w with
  | Some e => mret (w, Some e)
  | None =>
    (* Length *)
    w ← fillStub (len64 data) w;
    let '(w, e) := rawWrite (stub w) w in
    let w := set_err e w in
    match err w with
    | Some e => mret (w, Some e)
    | None =>
      (* Offset *)
      let offset := alignOffset align (add64 (numBytesWritten w) intSize) in
      w ← fillStub offset w;
      let '(w, e) := rawWrite (stub w) w in
      let w := set_err e w in
      match err w with
      | Some e => mret (w, Some e)
      | None =>
        (* Padding *)
        pad ← make_bytes offset;
        let '(w, e) := rawWrite pad w in
        let w := set_err e w in
        match err w with
        | Some e => mret (w, Some e)
        | None =>
          (* Data *)
          let '(w, e) := rawWrite data w in
          let w := set_err e w in
          match err w with
          | Some e => mret (w, Some e)
          | None => mret (w, None)
          end
        end
      end
    end
  end.
End writer.
Arguments t S : clear implicits.
Arguments fillStub : simpl never.
Arguments rawWrite : simpl never.
Arguments Write : simpl never.
End ByteBlockWriter.
End Standalone.

(** ** Derived notions used by the statements *)

(** The little-endian byte string of an int64, in closed form: the bytes
    [fillInt64] stores, least significant first. *)
Fixpoint le_bytes_from (count : nat) (n : Z) : list byte :=
  match count with
  | O => []
  | S count' => byte_of_int64 n :: le_bytes_from count' (sar64 n 8)
  end.

Definition le_bytes (n : Z) : list byte := le_bytes_from 8 n.

(** Write the blocks in order, keeping what each call returned. *)
Fixpoint WriteAll {S : Type} `{!IoWriter S} (blocks : list (list byte * Z))
    (w : ByteBlockWriter.t S)
  : outcome (ByteBlockWriter.t S * list (option error)) :=
  match blocks with
  | [] => mret (w, [])
  | (data, align) :: blocks' =>
      '(w, e) ← ByteBlockWriter.Write data align w;
      '(w, es) ← WriteAll blocks' w;
      mret (w, e :: es)
  end.

(** The same loop over the standalone writer. *)
Fixpoint StandaloneWriteAll {S : Type} `{!IoWriter S}
    (blocks : list (list byte * Z)) (w : Standalone.ByteBlockWriter.t S)
  : outcome (Standalone.ByteBlockWriter.t S * list (option error)) :=
  match blocks with
  | [] => mret (w, [])
  | (data, align) :: blocks' =>
      '(w, e) ← Standalone.ByteBlockWriter.Write data align w;
      '(w, es) ← StandaloneWriteAll blocks' w;
      mret (w, e :: es)
  end.

(** Call [Slice] [count] times, keeping what each call returned. *)
Fixpoint SliceN (count : nat) (r : ByteBlockSlicer.t)
  : outcome (ByteBlockSlicer.t * list (list byte * option error)) :=
  match count with
  | O => mret (r, [])
  | S count' =>
      '(r, x) ← ByteBlockSlicer.Slice r;
      '(r, xs) ← SliceN count' r;
      mret (r, x :: xs)
  end.

(** A caller's use of the incremental writer, one method call at a time. *)
Inductive call : Type :=
| CallNewBlock (align length : Z)
| CallAppend (data : list byte)
| CallAppendString (data : list byte)
| CallWrite (data : list byte) (align : Z)
| CallWriteString (data : list byte) (align : Z).

Definition do_call {S : Type} `{!IoWriter S} (c : call) (w : ByteBlockWriter.t S)
  : outcome (ByteBlockWriter.t S * option error) :=
  match c with
  | CallNewBlock align length => ByteBlockWriter.NewBlock align length w
  | CallAppend data => mret (ByteBlockWriter.Append data w)
  | CallAppendString data => mret (ByteBlockWriter.AppendString data w)
  | CallWrite data align => ByteBlockWriter.Write data align w
  | CallWriteString data align => ByteBlockWriter.WriteString data align w
  end.

Fixpoint do_calls {S : Type} `{!IoWriter S} (cs : list call)
    (w : ByteBlockWriter.t S) : outcome (ByteBlockWriter.t S) :=
  match cs with
  | [] => mret w
  | c :: cs' => '(w, _) ← do_call c w; do_calls cs' w
  end.

(** The wire format of one frame whose header starts at [pos]. *)
Definition frame (pos : Z) (data : list byte) (align : Z) : list byte :=
  let offset := alignOffset align (pos + 16) in
  le_bytes (Z.of_nat (length data)) ++ le_bytes offset ++
  replicate (Z.to_nat offset) x00 ++ data.

Fixpoint frames (pos : Z) (blocks : list (list byte * Z)) : list byte :=
  match blocks with
  | [] => []
  | (data, align) :: blocks' =>
      frame pos data align ++
      frames (pos + Z.of_nat (length (frame pos data align))) blocks'
  end.

(** The io.Writer contract: a write that reports no error took the whole
    slice. *)
Definition obeys_contract (S : Type) `{!IoWriter S} : Prop :=
  forall (s s' : S) (p : list byte) (n : Z),
    io_write s p = (s', (n, None)) -> n = Z.of_nat (length p).

(** The blocks of the package's own round-trip test. *)
Definition hello : list byte := [x68; x65; x6c; x6c; x6f].
Definition world : list byte := [x77; x6f; x72; x6c; x64].
Definition test_blocks : list (list byte * Z) :=
  [(hello, 0); (world, 4); (hello, 8); (world, 16)].

(** A frame as the slicer reads it, with any padding bytes: [f] is the
    padding and the payload. *)
Definition raw_frame (f : list byte * list byte) : list byte :=
  le_bytes (Z.of_nat (length f.2)) ++ le_bytes (Z.of_nat (length f.1)) ++
  f.1 ++ f.2.

Definition raw_frames (fs : list (list byte * list byte)) : list byte :=
  concat (raw_frame <$> fs).

(** The padding and payload of the frames [Write] produces from [pos] on. *)
Fixpoint raw_of (pos : Z) (blocks : list (list byte * Z))
  : list (list byte * list byte) :=
  match blocks with
  | [] => []
  | (data, align) :: blocks' =>
      (replicate (Z.to_nat (alignOffset align (pos + 16))) x00, data) ::
      raw_of (pos + Z.of_nat (length (frame pos data align))) blocks'
  end.

(** A writer over another sink that holds the image of the sink under [f]. *)
Definition map_writer {S T : Type} (f : S -> T) (w : ByteBlockWriter.t S)
  : ByteBlockWriter.t T :=
  ByteBlockWriter.mk (f (ByteBlockWriter.writer w))
    (ByteBlockWriter.numBytesWritten w) (ByteBlockWriter.numBytesLeft w)
    (ByteBlockWriter.err w) (ByteBlockWriter.stub w).

(** The bytes a call hands over as payload. *)
Definition data_of_call (c : call) : list byte :=
  match c with
  | CallNewBlock _ _ => []
  | CallAppend data | CallAppendString data => data
  | CallWrite data _ | CallWriteString data _ => data
  end.

Definition appended (cs : list call) : list byte := concat (data_of_call <$> cs).

(** Arguments a caller may pass: alignments are int64 values, declared
    lengths are int64 values that are not negative. *)
Definition call_ok (c : call) : Prop :=
  match c with
  | CallNewBlock align length => in_int64 align /\ 0 <= length <= max_int64
  | CallAppend _ | CallAppendString _ => True
  | CallWrite _ align | CallWriteString _ align => in_int64 align
  end.

(** A frame under construction: [left] payload bytes are still to come. *)
Definition open_frame (left : Z) (f : list byte * list byte) : list byte :=
  le_bytes (Z.of_nat (length f.2) + left) ++ le_bytes (Z.of_nat (length f.1)) ++
  f.1 ++ f.2.

(** The buffer of a writer at work: whole frames, then the frame that is
    open, if any. *)
Definition building (w : ByteBlockWriter.t Buffer)
    (done : list (list byte * list byte)) (cur : option (list byte * list byte))
  : Prop :=
  ByteBlockWriter.writer w =
    raw_frames done ++
    from_option (open_frame (ByteBlockWriter.numBytesLeft w)) [] cur /\
  (0 <= ByteBlockWriter.numBytesLeft w <= max_int64) /\
  (cur = None -> ByteBlockWriter.numBytesLeft w = 0).

Definition payload_bytes (done : list (list byte * list byte))
    (cur : option (list byte * list byte)) : list byte :=
  concat (snd <$> done) ++ from_option snd [] cur.

(** A writer over a watched sink next to a writer over a bytes.Buffer that
    was given the same calls: in step while no error is latched, behind
    afterwards. *)
Definition behind {S : Type} (wr : ByteBlockWriter.t (Recorded S))
    (wb : ByteBlockWriter.t Buffer) : Prop :=
  match ByteBlockWriter.err wr with
  | None => wb = map_writer snd wr
  | Some _ =>
      exists rest,
        ByteBlockWriter.writer wb = (ByteBlockWriter.writer wr).2 ++ rest
  end.

(** The standalone writer's view of an incremental writer: the same fields
    without the remaining-length counter. *)
Definition forget {S : Type} (w : ByteBlockWriter.t S)
  : Standalone.ByteBlockWriter.t S :=
  Standalone.ByteBlockWriter.mk (ByteBlockWriter.writer w)
    (ByteBlockWriter.numBytesWritten w) (ByteBlockWriter.err w)
    (ByteBlockWriter.stub w).

(** The writer's byte counter follows the length of a bytes.Buffer sink,
    up to wrap-around. *)
Definition tracks (w : ByteBlockWriter.t Buffer) : Prop :=
  length (ByteBlockWriter.stub w) = 8%nat /\
  ByteBlockWriter.numBytesWritten w =
    wrap64 (Z.of_nat (length (ByteBlockWriter.writer w))).

Arguments wrap64 : simpl never.
Arguments add64 : simpl never.
Arguments sub64 : simpl never.
Arguments len64 : simpl never.
Arguments make_bytes : simpl never.
Arguments subslice : simpl never.
Arguments fillInt64 : simpl never.
Arguments readInt64 : simpl never.
Arguments alignOffset : simpl never.
Arguments le_bytes : simpl never.

(** * Facts about the run-time model *)

Lemma wrap64_id z : in_int64 z -> wrap64 z = z.
Proof.
  unfold in_int64, min_int64, max_int64, wrap64. intros H.
  rewrite Z.mod_small; lia.
Qed.

Lemma wrap64_range z : in_int64 (wrap64 z).
Proof.
  unfold in_int64, min_int64, max_int64, wrap64.
  pose proof (Z.mod_pos_bound (z + 2 ^ 63) (2 ^ 64)). lia.
Qed.

Lemma wrap64_add_l a b : wrap64 (wrap64 a + b) = wrap64 (a + b).
Proof.
  unfold wrap64.
  replace ((a + 2 ^ 63) mod 2 ^ 64 - 2 ^ 63 + b + 2 ^ 63)
    with ((a + 2 ^ 63) mod 2 ^ 64 + b) by lia.
  rewrite Zplus_mod_idemp_l. f_equal. f_equal. lia.
Qed.

Lemma int64_of_byte_of_int64 n : int64_of_byte (byte_of_int64 n) = n mod 256.
Proof.
  unfold int64_of_byte, byte_of_int64.
  pose proof (Z.mod_pos_bound n 256 ltac:(lia)) as Hb.
  destruct (Byte.of_N (Z.to_N (n mod 256))) as [b|] eqn:E.
  - apply Byte.to_of_N in E. simpl. rewrite E. lia.
  - apply Byte.of_N_None_iff in E. lia.
Qed.

Lemma int64_of_byte_range b : 0 <= int64_of_byte b < 256.
Proof.
  unfold int64_of_byte. pose proof (Byte.to_N_bounded b). lia.
Qed.

Lemma length_le_bytes n : length (le_bytes n) = 8%nat.
Proof. reflexivity. Qed.

(** ** Codec *)

Lemma fillInt64_spec n out :
  (8 <= length out)%nat -> fillInt64 n out = Returns (le_bytes n ++ drop 8 out).
Proof.
  intros H.
  do 8 (destruct out as [|? out]; [simpl in H; lia|]).
  reflexivity.
Qed.

Lemma fillInt64_short n out :
  (length out < 8)%nat -> fillInt64 n out = Panics IndexOutOfRange.
Proof.
  intros H.
  do 8 (destruct out as [|? out]; [reflexivity|]).
  simpl in H; lia.
Qed.

Lemma lor_disjoint x y k :
  0 <= k -> 0 <= x < 2 ^ k -> Z.lor x (y * 2 ^ k) = x + y * 2 ^ k.
Proof.
  intros Hk Hx.
  assert (Hland : Z.land x (y * 2 ^ k) = 0).
  { apply Z.bits_inj'. intros i Hi. rewrite Z.land_spec, Z.bits_0.
    destruct (Z.lt_ge_cases i k) as [Hlt|Hge].
    - rewrite Z.mul_pow2_bits_low by lia. apply andb_false_r.
    - rewrite <- (Z.mod_small x (2 ^ k)) by lia.
      rewrite Z.mod_pow2_bits_high by lia. reflexivity. }
  rewrite Z.add_nocarry_lxor by exact Hland.
  symmetry. apply Z.lxor_lor. exact Hland.
Qed.

Lemma shl64_low v k :
  0 <= v < 256 -> 0 <= k <= 48 -> shl64 v k = v * 2 ^ k.
Proof.
  intros Hv Hk. unfold shl64. rewrite Z.shiftl_mul_pow2 by lia.
  apply wrap64_id. unfold in_int64, min_int64, max_int64.
  assert (2 ^ k <= 2 ^ 48) by (apply Z.pow_le_mono_r; lia).
  assert (0 < 2 ^ k) by (apply Z.pow_pos_nonneg; lia).
  nia.
Qed.

Lemma shl64_top v :
  0 <= v < 256 -> shl64 v 56 = (if v <? 128 then v else v - 256) * 2 ^ 56.
Proof.
  intros Hv. unfold shl64, wrap64. rewrite Z.shiftl_mul_pow2 by lia.
  destruct (Z.ltb_spec v 128); Z.div_mod_to_equations; lia.
Qed.

Lemma readInt64_le_bytes n rest :
  in_int64 n -> readInt64 (le_bytes n ++ rest) = Returns n.
Proof.
  intros Hn. unfold readInt64, le_bytes.
  cbn [le_bytes_from readInt64_loop app lookup list_lookup].
  rewrite !int64_of_byte_of_int64.
  unfold sar64. rewrite !Z.shiftr_div_pow2 by lia. change (2 ^ 8) with 256.
  simpl (8 * Z.of_nat _).
  set (q1 := n / 256). set (q2 := q1 / 256). set (q3 := q2 / 256).
  set (q4 := q3 / 256). set (q5 := q4 / 256). set (q6 := q5 / 256).
  set (q7 := q6 / 256).
  pose proof (Z.div_mod n 256 ltac:(lia)) as E0.
  pose proof (Z.div_mod q1 256 ltac:(lia)) as E1.
  pose proof (Z.div_mod q2 256 ltac:(lia)) as E2.
  pose proof (Z.div_mod q3 256 ltac:(lia)) as E3.
  pose proof (Z.div_mod q4 256 ltac:(lia)) as E4.
  pose proof (Z.div_mod q5 256 ltac:(lia)) as E5.
  pose proof (Z.div_mod q6 256 ltac:(lia)) as E6.
  pose proof (Z.div_mod q7 256 ltac:(lia)) as E7.
  pose proof (Z.mod_pos_bound n 256 ltac:(lia)) as B0.
  pose proof (Z.mod_pos_bound q1 256 ltac:(lia)) as B1.
  pose proof (Z.mod_pos_bound q2 256 ltac:(lia)) as B2.
  pose proof (Z.mod_pos_bound q3 256 ltac:(lia)) as B3.
  pose proof (Z.mod_pos_bound q4 256 ltac:(lia)) as B4.
  pose proof (Z.mod_pos_bound q5 256 ltac:(lia)) as B5.
  pose proof (Z.mod_pos_bound q6 256 ltac:(lia)) as B6.
  pose proof (Z.mod_pos_bound q7 256 ltac:(lia)) as B7.
  fold q1 in E0. fold q2 in E1. fold q3 in E2. fold q4 in E3.
  fold q5 in E4. fold q6 in E5. fold q7 in E6.
  set (r0 := n mod 256) in *. set (r1 := q1 mod 256) in *.
  set (r2 := q2 mod 256) in *. set (r3 := q3 mod 256) in *.
  set (r4 := q4 mod 256) in *. set (r5 := q5 mod 256) in *.
  set (r6 := q6 mod 256) in *. set (r7 := q7 mod 256) in *.
  clearbody r0 r1 r2 r3 r4 r5 r6 r7 q1 q2 q3 q4 q5 q6 q7.
  rewrite !shl64_low by lia. rewrite shl64_top by lia.
  rewrite Z.lor_0_l.
  rewrite (lor_disjoint _ r1 8) by lia.
  rewrite (lor_disjoint _ r2 16) by lia.
  rewrite (lor_disjoint _ r3 24) by lia.
  rewrite (lor_disjoint _ r4 32) by lia.
  rewrite (lor_disjoint _ r5 40) by lia.
  rewrite (lor_disjoint _ r6 48) by lia.
  rewrite (lor_disjoint _ _ 56) by lia.
  f_equal. unfold in_int64, min_int64, max_int64 in Hn.
  destruct (Z.ltb_spec r7 128); lia.
Qed.

Lemma readInt64_short data :
  (length data < 8)%nat -> readInt64 data = Panics IndexOutOfRange.
Proof.
  intros H.
  do 8 (destruct data as [|? data]; [reflexivity|]).
  simpl in H; lia.
Qed.

(** ** Aligner *)

Lemma alignOffset_le_1 align pos : align <= 1 -> alignOffset align pos = 0.
Proof.
  intros H. unfold alignOffset. destruct (Z.leb_spec align 1); [reflexivity|lia].
Qed.

(** For a position that is not negative, the padding is the least one that
    reaches a multiple of [align]. *)
Lemma alignOffset_pos align pos :
  1 < align -> in_int64 align -> 0 <= pos ->
  (0 <= alignOffset align pos < align) /\
  (pos + alignOffset align pos) mod align = 0.
Proof.
  intros Ha Hr Hp. unfold alignOffset, rem64, sub64.
  destruct (Z.leb_spec align 1); [lia|].
  rewrite Z.rem_mod_nonneg by lia.
  pose proof (Z.mod_pos_bound pos align ltac:(lia)) as Hb.
  destruct (Z.eqb_spec (pos mod align) 0) as [E|E].
  - split; [lia|]. rewrite Z.add_0_r. exact E.
  - rewrite wrap64_id by (unfold in_int64, min_int64, max_int64 in *; lia).
    split; [lia|].
    replace (pos + (align - pos mod align))
      with (pos - pos mod align + 1 * align) by lia.
    rewrite Z.mod_add by lia.
    rewrite Zminus_mod_idemp_r, Z.sub_diag. apply Z.mod_0_l. lia.
Qed.

(** For a negative position Go's remainder is not positive: the position is
    [- (align * q + m)] with [0 <= m < align], the remainder is [- m], and
    the result is [align + m] (wrapped to 64 bits) unless [m = 0]. *)
Lemma alignOffset_neg align pos :
  1 < align -> pos < 0 ->
  exists q m,
    0 <= q /\ 0 <= m < align /\ pos = - (align * q + m) /\
    rem64 pos align = - m /\
    alignOffset align pos = if m =? 0 then 0 else wrap64 (align + m).
Proof.
  intros Ha Hp.
  exists ((- pos) / align), ((- pos) mod align).
  pose proof (Z.div_mod (- pos) align ltac:(lia)) as Hd.
  pose proof (Z.mod_pos_bound (- pos) align ltac:(lia)) as Hb.
  assert (Hq : 0 <= (- pos) / align) by (apply Z.div_pos; lia).
  assert (Hr : rem64 pos align = - ((- pos) mod align)).
  { unfold rem64. replace pos with (- - pos) at 1 by lia.
    rewrite Z.rem_opp_l by lia. rewrite Z.rem_mod_nonneg by lia. reflexivity. }
  split; [exact Hq|]. split; [exact Hb|]. split; [lia|]. split; [exact Hr|].
  unfold alignOffset. rewrite Hr.
  destruct (Z.leb_spec align 1); [lia|].
  destruct (Z.eqb_spec (- ((- pos) mod align)) 0) as [E|E];
    destruct (Z.eqb_spec ((- pos) mod align) 0) as [E'|E']; try lia.
  unfold sub64. f_equal. lia.
Qed.

(** ** Writer: facts that hold over every sink *)

Section writer_facts.
Context {S : Type} `{!IoWriter S}.
Import ByteBlockWriter.
Implicit Types w : ByteBlockWriter.t S.

Lemma set_err_same w : set_err (err w) w = w.
Proof. destruct w; reflexivity. Qed.

(** A latched error makes every operation return at once. *)
Lemma NewBlock_latched w e align length :
  err w = Some e -> NewBlock align length w = Returns (w, Some e).
Proof. intros H. unfold NewBlock. rewrite H. reflexivity. Qed.

Lemma Append_latched w e data :
  err w = Some e -> Append data w = (w, Some e).
Proof. intros H. unfold Append. rewrite H. reflexivity. Qed.

Lemma Write_latched w e data align :
  err w = Some e -> Write data align w = Returns (w, Some e).
Proof.
  intros H. unfold Write. rewrite (NewBlock_latched _ _ _ _ H). simpl.
  rewrite <- H, set_err_same, H. reflexivity.
Qed.

(** What an operation returns is what it leaves in the [err] field. *)
Lemma NewBlock_returns_err w w' e align length :
  NewBlock align length w = Returns (w', e) -> err w' = e.
Proof.
  unfold NewBlock. destruct (err w) as [e0|] eqn:E.
  { intros [= <- <-]. exact E. }
  destruct (0 <? numBytesLeft w).
  { intros [= <- <-]. reflexivity. }
  destruct (fillStub length w) as [w1|]; simpl; [|discriminate].
  destruct (rawWrite (stub w1) w1) as [w2 [e2|]]; simpl.
  { intros [= <- <-]. reflexivity. }
  destruct (fillStub _ _) as [w3|]; simpl; [|discriminate].
  destruct (rawWrite (stub w3) w3) as [w4 [e4|]]; simpl.
  { intros [= <- <-]. reflexivity. }
  destruct (make_bytes _) as [pad|]; simpl; [|discriminate].
  destruct (rawWrite pad _) as [w5 [e5|]]; simpl.
  { intros [= <- <-]. reflexivity. }
  intros [= <- <-]. reflexivity.
Qed.

Lemma Append_returns_err w w' e data :
  Append data w = (w', e) -> err w' = e.
Proof.
  unfold Append. destruct (err w) as [e0|] eqn:E.
  { intros [= <- <-]. exact E. }
  destruct (numBytesLeft w <? len64 data).
  { intros [= <- <-]. reflexivity. }
  destruct (rawWrite data w) as [w1 [e1|]]; simpl; intros [= <- <-]; reflexivity.
Qed.

(** [Write] is [NewBlock] followed by [Append]. *)
Lemma Write_unfold w data align :
  Write data align w =
  '(w1, _) ← NewBlock align (len64 data) w; mret (Append data w1).
Proof.
  unfold Write.
  destruct (NewBlock align (len64 data) w) as [[w1 e1]|] eqn:E1; simpl; [|reflexivity].
  pose proof (NewBlock_returns_err _ _ _ _ _ E1) as L1.
  rewrite <- L1, set_err_same.
  destruct (err w1) as [e|] eqn:Ee.
  { rewrite (Append_latched _ _ _ Ee). reflexivity. }
  destruct (Append data w1) as [w2 e2] eqn:E2.
  pose proof (Append_returns_err _ _ _ _ E2) as L2.
  rewrite <- L2, set_err_same. destruct (err w2); reflexivity.
Qed.

End writer_facts.

Section writer_runs.
Context {S : Type} `{!IoWriter S}.
Import ByteBlockWriter.
Implicit Types w : ByteBlockWriter.t S.

Lemma fillStub_spec w n :
  length (stub w) = 8%nat -> fillStub n w = Returns (set_stub (le_bytes n) w).
Proof.
  intros H. unfold fillStub.
  rewrite fillInt64_spec, drop_ge, app_nil_r by lia. reflexivity.
Qed.

(** [NewBlock] over a sink that takes the three writes. *)
Lemma NewBlock_accepted w align len offset s1 s2 s3 n1 n2 n3 :
  err w = None -> numBytesLeft w <= 0 -> length (stub w) = 8%nat ->
  io_write (writer w) (le_bytes len) = (s1, (n1, None)) ->
  offset = alignOffset align (add64 (add64 (numBytesWritten w) n1) 8) ->
  io_write s1 (le_bytes offset) = (s2, (n2, None)) ->
  0 <= offset ->
  io_write s2 (replicate (Z.to_nat offset) x00) = (s3, (n3, None)) ->
  NewBlock align len w =
  Returns (mk s3 (add64 (add64 (add64 (numBytesWritten w) n1) n2) n3)
             len None (le_bytes offset), None).
Proof.
  intros He Hl Hs W1 -> W2 Ho W3. unfold NewBlock. rewrite He.
  destruct (Z.ltb_spec 0 (numBytesLeft w)); [lia|].
  rewrite fillStub_spec by exact Hs. cbn.
  unfold rawWrite at 1. cbn. rewrite W1. cbn.
  rewrite fillStub_spec by reflexivity. cbn.
  unfold rawWrite at 1. cbn. rewrite W2. cbn.
  unfold make_bytes.
  destruct (Z.ltb_spec (alignOffset align (add64 (add64 (numBytesWritten w) n1) 8)) 0);
    [lia|]. cbn.
  unfold rawWrite. cbn. rewrite W3. cbn. reflexivity.
Qed.

Lemma Append_accepted w data s1 n :
  err w = None -> len64 data <= numBytesLeft w ->
  io_write (writer w) data = (s1, (n, None)) ->
  Append data w =
  (mk s1 (add64 (numBytesWritten w) n) (sub64 (numBytesLeft w) n) None (stub w),
   None).
Proof.
  intros He Hl W. unfold Append. rewrite He.
  destruct (Z.ltb_spec (numBytesLeft w) (len64 data)); [lia|].
  unfold rawWrite. rewrite W. simpl. reflexivity.
Qed.

End writer_runs.

(** ** Writer over a bytes.Buffer *)

Section buffer_writer.
Import ByteBlockWriter.
Implicit Types w : ByteBlockWriter.t Buffer.

Lemma add64_wrap a b : add64 (wrap64 a) b = wrap64 (a + b).
Proof. apply wrap64_add_l. Qed.

Lemma rawWrite_Buffer data w :
  rawWrite data w =
  (mk (writer w ++ data) (add64 (numBytesWritten w) (Z.of_nat (length data)))
      (sub64 (numBytesLeft w) (Z.of_nat (length data))) (err w) (stub w), None).
Proof. reflexivity. Qed.

Lemma rawWrite_tracks data w w' e :
  tracks w -> rawWrite data w = (w', e) ->
  tracks w' /\ e = None /\ err w' = err w /\ writer w' = writer w ++ data.
Proof.
  intros [Hs Hn]. rewrite rawWrite_Buffer. intros [= <- <-].
  unfold tracks. cbn. repeat split; [exact Hs|].
  rewrite Hn, add64_wrap, length_app. f_equal. lia.
Qed.

Lemma fillStub_tracks w n :
  tracks w -> exists w', fillStub n w = Returns w' /\ tracks w' /\
    err w' = err w /\ writer w' = writer w /\ stub w' = le_bytes n /\
    numBytesWritten w' = numBytesWritten w /\ numBytesLeft w' = numBytesLeft w.
Proof.
  intros [Hs Hn]. rewrite fillStub_spec by exact Hs.
  eexists. split; [reflexivity|]. unfold tracks. cbn. repeat split. exact Hn.
Qed.

(** The sink only grows, and the counter keeps following it. *)
Lemma NewBlock_tracks w w' e align len :
  tracks w -> NewBlock align len w = Returns (w', e) ->
  tracks w' /\ exists added, writer w' = writer w ++ added.
Proof.
  intros T. unfold NewBlock. destruct (err w) as [e0|].
  { intros [= <- <-]. split; [exact T|]. exists []. symmetry. apply app_nil_r. }
  destruct (0 <? numBytesLeft w).
  { intros [= <- <-]. split; [exact T|]. exists []. symmetry. apply app_nil_r. }
  destruct (fillStub_tracks w len T) as (w1 & -> & T1 & _ & S1 & B1 & _). cbn.
  destruct (rawWrite (stub w1) w1) as [w2 e2] eqn:R2.
  destruct (rawWrite_tracks _ _ _ _ T1 R2) as (T2 & -> & _ & S2). cbn.
  assert (T2' : tracks (set_err None w2)) by exact T2.
  destruct (fillStub_tracks _ (alignOffset align (add64 (numBytesWritten w2) 8)) T2')
    as (w3 & -> & T3 & _ & S3 & B3 & _). cbn.
  destruct (rawWrite (stub w3) w3) as [w4 e4] eqn:R4.
  destruct (rawWrite_tracks _ _ _ _ T3 R4) as (T4 & -> & _ & S4). cbn.
  destruct (make_bytes _) as [pad|]; [|discriminate]. cbn.
  assert (T4' : tracks (set_err None w4)) by exact T4.
  destruct (rawWrite pad (set_err None w4)) as [w5 e5] eqn:R5.
  destruct (rawWrite_tracks _ _ _ _ T4' R5) as (T5 & -> & _ & S5). cbn.
  intros [= <- <-]. split; [exact T5|]. cbn in *.
  rewrite S5, S4, S3, S2, S1. eexists. rewrite <- !app_assoc. reflexivity.
Qed.

Lemma Append_tracks w w' e data :
  tracks w -> Append data w = (w', e) ->
  tracks w' /\ exists added, writer w' = writer w ++ added.
Proof.
  intros T. unfold Append. destruct (err w) as [e0|].
  { intros [= <- <-]. split; [exact T|]. exists []. symmetry. apply app_nil_r. }
  destruct (numBytesLeft w <? len64 data).
  { intros [= <- <-]. split; [exact T|]. exists []. symmetry. apply app_nil_r. }
  destruct (rawWrite data w) as [w1 e1] eqn:R1.
  destruct (rawWrite_tracks _ _ _ _ T R1) as (T1 & -> & _ & S1). cbn.
  intros [= <- <-]. split; [exact T1|]. exists data. exact S1.
Qed.

Lemma Write_tracks w w' e data align :
  tracks w -> Write data align w = Returns (w', e) ->
  tracks w' /\ exists added, writer w' = writer w ++ added.
Proof.
  intros T. rewrite Write_unfold.
  destruct (NewBlock align (len64 data) w) as [[w1 e1]|] eqn:N; [|discriminate].
  cbn. intros [= A].
  destruct (NewBlock_tracks _ _ _ _ _ T N) as (T1 & a1 & S1).
  destruct (Append_tracks _ _ _ _ T1 A) as (T2 & a2 & S2).
  split; [exact T2|]. exists (a1 ++ a2). rewrite S2, S1, app_assoc. reflexivity.
Qed.

Lemma do_call_tracks c w w' e :
  tracks w -> do_call c w = Returns (w', e) ->
  tracks w' /\ exists added, writer w' = writer w ++ added.
Proof.
  intros T. destruct c; cbn.
  - apply NewBlock_tracks, T.
  - intros [= A]. exact (Append_tracks _ _ _ _ T A).
  - intros [= A]. exact (Append_tracks _ _ _ _ T A).
  - apply Write_tracks, T.
  - apply (Write_tracks w w' e data align T).
Qed.

Lemma do_calls_tracks cs w w' :
  tracks w -> do_calls cs w = Returns w' ->
  tracks w' /\ exists added, writer w' = writer w ++ added.
Proof.
  revert w. induction cs as [|c cs IH]; intros w T; cbn.
  - intros [= <-]. split; [exact T|]. exists []. symmetry. apply app_nil_r.
  - destruct (do_call c w) as [[w1 e1]|] eqn:C; [|discriminate]. cbn.
    intros R. destruct (do_call_tracks _ _ _ _ T C) as (T1 & a1 & S1).
    destruct (IH _ T1 R) as (T2 & a2 & S2).
    split; [exact T2|]. exists (a1 ++ a2). rewrite S2, S1, app_assoc. reflexivity.
Qed.

Lemma NewByteBlockWriter_tracks buf :
  (Z.of_nat (length buf) = 0) -> tracks (NewByteBlockWriter buf).
Proof. intros H. split; [reflexivity|]. cbn. rewrite H. reflexivity. Qed.

Lemma alignOffset_nonneg align pos :
  in_int64 align -> 0 <= pos -> 0 <= alignOffset align pos.
Proof.
  intros Ha Hp. destruct (Z.le_gt_cases align 1).
  - rewrite alignOffset_le_1 by lia. lia.
  - destruct (alignOffset_pos align pos) as [? _]; [lia|exact Ha|lia|lia].
Qed.

Lemma add64_id a b : in_int64 (a + b) -> add64 a b = a + b.
Proof. apply wrap64_id. Qed.

Lemma len64_id {A} (l : list A) :
  Z.of_nat (length l) <= max_int64 -> len64 l = Z.of_nat (length l).
Proof.
  intros H. apply wrap64_id. unfold in_int64, min_int64, max_int64 in *. lia.
Qed.

Lemma sub64_diag a : sub64 a a = 0.
Proof. unfold sub64. rewrite Z.sub_diag. reflexivity. Qed.

Lemma sub64_len64 {A} (l : list A) : sub64 (len64 l) (Z.of_nat (length l)) = 0.
Proof.
  unfold sub64, len64.
  replace (wrap64 (Z.of_nat (length l)) - Z.of_nat (length l))
    with (wrap64 (Z.of_nat (length l)) + - Z.of_nat (length l)) by lia.
  rewrite wrap64_add_l, Z.add_opp_diag_r. reflexivity.
Qed.

(** A writer between two blocks, whose counter is the length of the sink. *)
Lemma NewBlock_Buffer w align len :
  tracks w -> err w = None -> numBytesLeft w <= 0 -> in_int64 align ->
  let pos := Z.of_nat (length (writer w)) + 16 in
  let offset := alignOffset align pos in
  pos + offset <= max_int64 ->
  NewBlock align len w =
  Returns (mk (writer w ++ le_bytes len ++ le_bytes offset ++
               replicate (Z.to_nat offset) x00)
              (pos + offset) len None (le_bytes offset), None).
Proof.
  intros [Hs Hn] He Hl Ha pos offset Hb.
  assert (Ho : 0 <= offset) by (apply alignOffset_nonneg; [exact Ha|lia]).
  assert (Hnb : numBytesWritten w = Z.of_nat (length (writer w))).
  { rewrite Hn. apply wrap64_id.
    unfold in_int64, min_int64, max_int64 in *. lia. }
  assert (E1 : add64 (add64 (numBytesWritten w) 8) 8 = pos).
  { rewrite Hnb. unfold pos in *.
    rewrite (add64_id (Z.of_nat _) 8)
      by (unfold in_int64, min_int64, max_int64 in *; lia).
    rewrite add64_id by (unfold in_int64, min_int64, max_int64 in *; lia).
    lia. }
  rewrite (NewBlock_accepted w align len offset
             (writer w ++ le_bytes len)
             ((writer w ++ le_bytes len) ++ le_bytes offset)
             (((writer w ++ le_bytes len) ++ le_bytes offset) ++
                replicate (Z.to_nat offset) x00)
             8 8 (Z.of_nat (length (replicate (Z.to_nat offset) x00))));
    try reflexivity; try assumption.
  - rewrite E1, length_replicate, Z2Nat.id by lia.
    rewrite add64_id by (unfold in_int64, min_int64, max_int64 in *; lia).
    rewrite <- !app_assoc. reflexivity.
  - rewrite E1. reflexivity.
Qed.

Lemma Write_Buffer w data align :
  tracks w -> err w = None -> numBytesLeft w <= 0 -> in_int64 align ->
  let pos := Z.of_nat (length (writer w)) in
  let offset := alignOffset align (pos + 16) in
  pos + Z.of_nat (length (frame pos data align)) <= max_int64 ->
  Write data align w =
  Returns (mk (writer w ++ frame pos data align)
              (pos + Z.of_nat (length (frame pos data align)))
              0 None (le_bytes offset), None).
Proof.
  intros T He Hl Ha pos offset Hb.
  assert (Ho : 0 <= offset) by (apply alignOffset_nonneg; [exact Ha|lia]).
  assert (Hf : Z.of_nat (length (frame pos data align)) =
               16 + offset + Z.of_nat (length data)).
  { unfold frame. fold offset.
    rewrite !length_app, !length_le_bytes, length_replicate. lia. }
  rewrite Hf in *.
  assert (Hd : len64 data = Z.of_nat (length data)) by (apply len64_id; lia).
  rewrite Write_unfold, Hd.
  rewrite NewBlock_Buffer by (try assumption; fold pos; fold offset; lia).
  cbn. f_equal.
  erewrite Append_accepted;
    [|reflexivity|cbn; rewrite Hd; lia|reflexivity].
  cbn. fold pos. fold offset. rewrite sub64_diag.
  rewrite add64_id by (unfold in_int64, min_int64, max_int64 in *; lia).
  unfold frame. fold offset. rewrite <- !app_assoc, !Z.add_assoc.
  reflexivity.
Qed.

End buffer_writer.

Lemma WriteAll_Buffer blocks (w : ByteBlockWriter.t Buffer) :
  tracks w -> ByteBlockWriter.err w = None ->
  ByteBlockWriter.numBytesLeft w <= 0 ->
  Forall (fun b => in_int64 b.2) blocks ->
  let pos := Z.of_nat (length (ByteBlockWriter.writer w)) in
  pos + Z.of_nat (length (frames pos blocks)) <= max_int64 ->
  exists w',
    WriteAll blocks w = Returns (w', replicate (length blocks) None) /\
    ByteBlockWriter.writer w' = ByteBlockWriter.writer w ++ frames pos blocks /\
    tracks w' /\ ByteBlockWriter.err w' = None /\
    ByteBlockWriter.numBytesLeft w' <= 0.
Proof.
  revert w. induction blocks as [|[data align] blocks IH]; intros w T He Hl Ha pos Hb.
  - exists w. cbn. rewrite app_nil_r. auto.
  - apply Forall_cons in Ha as [Ha Has]. cbn in Ha.
    cbn [frames] in Hb. fold pos in Hb. rewrite length_app in Hb.
    cbn [WriteAll].
    rewrite Write_Buffer by (try assumption; fold pos; lia). cbn. fold pos.
    set (w1 := ByteBlockWriter.mk _ _ _ _ _).
    destruct (IH w1) as (w' & R & Sw & T' & He' & Hl').
    + split; [reflexivity|]. unfold w1. cbn. rewrite length_app. fold pos.
      symmetry. replace (Z.of_nat (length (ByteBlockWriter.writer w) +
                                     length (frame pos data align)))
        with (pos + Z.of_nat (length (frame pos data align))) by (unfold pos; lia).
      apply wrap64_id. unfold in_int64, min_int64, max_int64 in *. lia.
    + reflexivity.
    + cbn. lia.
    + exact Has.
    + unfold w1. cbn. rewrite length_app. fold pos.
      replace (Z.of_nat (length (ByteBlockWriter.writer w) +
                           length (frame pos data align)))
        with (pos + Z.of_nat (length (frame pos data align))) by (unfold pos; lia).
      lia.
    + exists w'. rewrite R. cbn. split; [reflexivity|].
      split; [|auto]. rewrite Sw. unfold w1. cbn. rewrite length_app. fold pos.
      replace (Z.of_nat (length (ByteBlockWriter.writer w) +
                           length (frame pos data align)))
        with (pos + Z.of_nat (length (frame pos data align))) by (unfold pos; lia).
      rewrite <- app_assoc. reflexivity.
Qed.

(** ** Slicer *)

Section slicer_facts.
Import ByteBlockSlicer.

Lemma readInt64_le n : in_int64 n -> readInt64 (le_bytes n) = Returns n.
Proof.
  intros H. rewrite <- (app_nil_r (le_bytes n)). apply readInt64_le_bytes, H.
Qed.

Lemma rawSlice_app dat cur e pre b post n :
  dat = pre ++ b ++ post -> cur = Z.of_nat (length pre) ->
  n = Z.of_nat (length b) -> Z.of_nat (length dat) <= max_int64 ->
  rawSlice n (mk dat cur e) = Returns (mk dat (cur + n) e, (b, None)).
Proof.
  intros Hd Hc Hn Hb. unfold rawSlice. cbn.
  assert (Hlen : Z.of_nat (length dat) =
                 cur + n + Z.of_nat (length post)).
  { rewrite Hd, !length_app. lia. }
  rewrite len64_id by exact Hb.
  rewrite add64_id by (unfold in_int64, min_int64, max_int64 in *; lia).
  destruct (Z.ltb_spec (Z.of_nat (length dat)) (cur + n)); [lia|].
  unfold subslice.
  destruct (Z.leb_spec 0 cur); [|lia].
  destruct (Z.leb_spec cur (cur + n)); [|lia].
  destruct (Z.leb_spec (cur + n) (Z.of_nat (length dat))); [|lia].
  cbn. do 3 f_equal. rewrite Hd.
  rewrite drop_app_length' by lia.
  apply take_app_length'. lia.
Qed.

Lemma rawSlice_short dat cur e n :
  0 <= cur -> 0 <= n -> Z.of_nat (length dat) < cur + n <= max_int64 ->
  rawSlice n (mk dat cur e) = Returns (mk dat cur e, ([], Some ErrNotEnoughBytes)).
Proof.
  intros Hc Hn Hb. unfold rawSlice. cbn.
  rewrite len64_id by lia.
  rewrite add64_id by (unfold in_int64, min_int64, max_int64 in *; lia).
  destruct (Z.ltb_spec (Z.of_nat (length dat)) (cur + n)); [reflexivity|lia].
Qed.

(** [Slice] on a buffer that holds a whole header at the cursor: what is
    left is to skip the padding and take the payload.  The two header fields
    are any eight bytes each that [readInt64] decodes. *)
Lemma Slice_fields dat pre bl bo len off rest :
  dat = pre ++ bl ++ bo ++ rest ->
  length bl = 8%nat -> length bo = 8%nat ->
  readInt64 bl = Returns len -> readInt64 bo = Returns off ->
  Z.of_nat (length dat) <= max_int64 ->
  Slice (mk dat (Z.of_nat (length pre)) None) =
  '(r, (_, e)) ← rawSlice off (mk dat (Z.of_nat (length pre) + 8 + 8) None);
  let r := set_err e r in
  match err r with
  | Some e => mret (r, ([], Some e))
  | None => rawSlice len r
  end.
Proof.
  intros Hd Hbl Hbo Hrl Hro Hb. unfold Slice. cbn [err data numBytesSliced].
  assert (Hlen : Z.of_nat (length dat) =
                 Z.of_nat (length pre) + 16 + Z.of_nat (length rest)).
  { rewrite Hd, !length_app, Hbl, Hbo. lia. }
  rewrite len64_id by exact Hb.
  destruct (Z.leb_spec (Z.of_nat (length dat)) (Z.of_nat (length pre))); [lia|].
  rewrite (rawSlice_app dat _ None pre bl (bo ++ rest) 8)
    by (try assumption; try reflexivity; lia).
  cbn. rewrite Hrl. unfold set_err. cbn.
  rewrite (rawSlice_app dat _ None (pre ++ bl) bo rest 8);
    [| rewrite Hd, <- app_assoc; reflexivity
     | rewrite length_app, Hbl; lia
     | lia | exact Hb].
  cbn. rewrite Hro. unfold set_err. cbn. reflexivity.
Qed.

Lemma Slice_header dat pre len off rest :
  dat = pre ++ le_bytes len ++ le_bytes off ++ rest ->
  in_int64 len -> in_int64 off -> Z.of_nat (length dat) <= max_int64 ->
  Slice (mk dat (Z.of_nat (length pre)) None) =
  '(r, (_, e)) ← rawSlice off (mk dat (Z.of_nat (length pre) + 8 + 8) None);
  let r := set_err e r in
  match err r with
  | Some e => mret (r, ([], Some e))
  | None => rawSlice len r
  end.
Proof.
  intros Hd Hl Ho Hb.
  apply (Slice_fields dat pre (le_bytes len) (le_bytes off) len off rest Hd);
    try apply length_le_bytes; try (apply readInt64_le; assumption); exact Hb.
Qed.

Lemma length_frame pos data align :
  0 <= alignOffset align (pos + 16) ->
  Z.of_nat (length (frame pos data align)) =
  16 + alignOffset align (pos + 16) + Z.of_nat (length data).
Proof.
  intros H. unfold frame.
  rewrite !length_app, !length_le_bytes, length_replicate. lia.
Qed.

(** A whole frame at the cursor is decoded to its payload. *)
Lemma Slice_frame pre pos data align post :
  0 <= alignOffset align (pos + 16) ->
  Z.of_nat (length (pre ++ frame pos data align ++ post)) <= max_int64 ->
  Slice (mk (pre ++ frame pos data align ++ post) (Z.of_nat (length pre)) None) =
  Returns (mk (pre ++ frame pos data align ++ post)
              (Z.of_nat (length pre) + Z.of_nat (length (frame pos data align)))
              None, (data, None)).
Proof.
  intros Ho Hb. rewrite length_frame by exact Ho.
  set (dat := pre ++ frame pos data align ++ post) in *.
  set (off := alignOffset align (pos + 16)) in *.
  assert (Hd : dat = pre ++ le_bytes (Z.of_nat (length data)) ++ le_bytes off ++
                 (replicate (Z.to_nat off) x00 ++ data ++ post)).
  { unfold dat, frame. fold off. rewrite <- !app_assoc. reflexivity. }
  assert (Hlen : Z.of_nat (length dat) =
                 Z.of_nat (length pre) + 16 + off + Z.of_nat (length data) +
                 Z.of_nat (length post)).
  { rewrite Hd, !length_app, !length_le_bytes, length_replicate. lia. }
  rewrite (Slice_header dat pre _ off _ Hd)
    by (try exact Hb; unfold in_int64, min_int64, max_int64 in *; lia).
  rewrite (rawSlice_app dat _ None (pre ++ le_bytes (Z.of_nat (length data)) ++ le_bytes off)
             (replicate (Z.to_nat off) x00) (data ++ post) off);
    [| rewrite Hd, <- !app_assoc; reflexivity
     | rewrite !length_app, !length_le_bytes; lia
     | rewrite length_replicate; lia | exact Hb].
  unfold set_err. cbn.
  rewrite (rawSlice_app dat _ None
             (pre ++ le_bytes (Z.of_nat (length data)) ++ le_bytes off ++
              replicate (Z.to_nat off) x00) data post (Z.of_nat (length data)));
    [| rewrite Hd, <- !app_assoc; reflexivity
     | rewrite !length_app, !length_le_bytes, length_replicate; lia
     | reflexivity | exact Hb].
  do 3 f_equal. lia.
Qed.

(** Slicing a run of frames returns their payloads in order. *)
Lemma SliceN_frames blocks pre post :
  Forall (fun b => in_int64 b.2) blocks ->
  let pos := Z.of_nat (length pre) in
  Z.of_nat (length (pre ++ frames pos blocks ++ post)) <= max_int64 ->
  SliceN (length blocks) (mk (pre ++ frames pos blocks ++ post) pos None) =
  Returns (mk (pre ++ frames pos blocks ++ post)
              (pos + Z.of_nat (length (frames pos blocks))) None,
           (fun b => (b.1, None)) <$> blocks).
Proof.
  revert pre. induction blocks as [|[data align] blocks IH];
    intros pre Ha pos Hb; subst pos.
  - cbn. rewrite Z.add_0_r. reflexivity.
  - apply Forall_cons in Ha as [Ha Has]. cbn in Ha.
    cbn [frames length SliceN]. cbn [frames] in Hb.
    rewrite <- app_assoc in *.
    assert (Ho : 0 <= alignOffset align (Z.of_nat (length pre) + 16))
      by (apply alignOffset_nonneg; [exact Ha|lia]).
    rewrite Slice_frame by (try exact Ho; exact Hb). cbn.
    assert (Hp : Z.of_nat (length (pre ++ frame (Z.of_nat (length pre)) data align)) =
                 Z.of_nat (length pre) +
                 Z.of_nat (length (frame (Z.of_nat (length pre)) data align)))
      by (rewrite length_app; lia).
    specialize (IH (pre ++ frame (Z.of_nat (length pre)) data align) Has).
    cbv zeta in IH.
    rewrite Hp, <- !app_assoc in IH. rewrite IH by exact Hb. cbn.
    rewrite length_app. do 3 f_equal. lia.
Qed.




End slicer_facts.

(** ** The standalone writer against the incremental one *)

Lemma byte_of_int64_land n : byte_of_int64 (Z.land n 255) = byte_of_int64 n.
Proof.
  unfold byte_of_int64. change 255 with (Z.ones 8).
  rewrite Z.land_ones by lia. change (2 ^ 8) with 256.
  rewrite Z.mod_mod by lia. reflexivity.
Qed.

Lemma Standalone_fillInt64_loop left i n out :
  Standalone.fillInt64_loop left i n out = fillInt64_loop left i n out.
Proof.
  revert i n out. induction left as [|left IH]; intros i n out.
  - reflexivity.
  - cbn [Standalone.fillInt64_loop fillInt64_loop].
    destruct (i <? length out)%nat; [|reflexivity].
    rewrite byte_of_int64_land. apply IH.
Qed.

Lemma Standalone_fillInt64 n out : Standalone.fillInt64 n out = fillInt64 n out.
Proof. apply Standalone_fillInt64_loop. Qed.

Section standalone.
Context {S : Type} `{!IoWriter S}.
Implicit Types w : ByteBlockWriter.t S.

Lemma fillStub_forget w n :
  Standalone.ByteBlockWriter.fillStub n (forget w) =
  w' ← ByteBlockWriter.fillStub n w; mret (forget w').
Proof.
  unfold Standalone.ByteBlockWriter.fillStub, ByteBlockWriter.fillStub.
  cbn. rewrite Standalone_fillInt64.
  destruct (fillInt64 n (ByteBlockWriter.stub w)); reflexivity.
Qed.

Lemma rawWrite_forget w p :
  Standalone.ByteBlockWriter.rawWrite p (forget w) =
  (forget (ByteBlockWriter.rawWrite p w).1, (ByteBlockWriter.rawWrite p w).2).
Proof.
  unfold Standalone.ByteBlockWriter.rawWrite, ByteBlockWriter.rawWrite. cbn.
  destruct (io_write (ByteBlockWriter.writer w) p) as [s [n e]]. reflexivity.
Qed.

Lemma NewBlock_left w w' align len :
  ByteBlockWriter.NewBlock align len w = Returns (w', None) ->
  ByteBlockWriter.numBytesLeft w' = len.
Proof.
  unfold ByteBlockWriter.NewBlock. destruct (ByteBlockWriter.err w); [discriminate|].
  destruct (0 <? ByteBlockWriter.numBytesLeft w); [discriminate|].
  destruct (ByteBlockWriter.fillStub len w) as [w1|]; cbn; [|discriminate].
  destruct (ByteBlockWriter.rawWrite _ w1) as [w2 [e2|]]; cbn; [discriminate|].
  destruct (ByteBlockWriter.fillStub _ _) as [w3|]; cbn; [|discriminate].
  destruct (ByteBlockWriter.rawWrite _ w3) as [w4 [e4|]]; cbn; [discriminate|].
  destruct (make_bytes _) as [pad|]; cbn; [|discriminate].
  destruct (ByteBlockWriter.rawWrite pad _) as [w5 [e5|]]; cbn; [discriminate|].
  intros [= <-]. reflexivity.
Qed.

Lemma Write_returns_err w w' e data align :
  ByteBlockWriter.Write data align w = Returns (w', e) ->
  ByteBlockWriter.err w' = e.
Proof.
  rewrite Write_unfold.
  destruct (ByteBlockWriter.NewBlock _ _ w) as [[w1 e1]|]; [|discriminate].
  cbn. intros [= A]. exact (Append_returns_err _ _ _ _ A).
Qed.

(** Over a sink that obeys the io.Writer contract, a block written without
    error is a finished block. *)
Lemma Write_finished w w' data align :
  obeys_contract S ->
  ByteBlockWriter.Write data align w = Returns (w', None) ->
  ByteBlockWriter.numBytesLeft w' = 0.
Proof.
  intros C. rewrite Write_unfold.
  destruct (ByteBlockWriter.NewBlock _ _ w) as [[w1 e1]|] eqn:N; [|discriminate].
  cbn. intros [= A].
  pose proof (NewBlock_returns_err _ _ _ _ _ N) as E1.
  destruct e1 as [e1|].
  { rewrite (Append_latched _ _ _ E1) in A. discriminate. }
  apply NewBlock_left in N.
  revert A. unfold ByteBlockWriter.Append. rewrite E1, N.
  rewrite Z.ltb_irrefl. unfold ByteBlockWriter.rawWrite.
  destruct (io_write (ByteBlockWriter.writer w1) data) as [s [n e]] eqn:W.
  cbn. destruct e as [e|]; [discriminate|].
  intros [= <-]. cbn. apply C in W. subst n. rewrite N. apply sub64_len64.
Qed.

(** One [Write] of the standalone writer is one [Write] of the incremental
    writer, as long as no block is left open. *)
Lemma Write_forget w data align :
  (ByteBlockWriter.err w = None -> ByteBlockWriter.numBytesLeft w <= 0) ->
  Standalone.ByteBlockWriter.Write data align (forget w) =
  '(w', e) ← ByteBlockWriter.Write data align w; mret (forget w', e).
Proof.
  intros Hl. unfold Standalone.ByteBlockWriter.Write.
  cbn [forget Standalone.ByteBlockWriter.err].
  destruct (ByteBlockWriter.err w) as [e0|] eqn:E.
  { rewrite (Write_latched _ _ _ _ E). reflexivity. }
  specialize (Hl eq_refl).
  rewrite Write_unfold. unfold ByteBlockWriter.NewBlock. rewrite E.
  destruct (Z.ltb_spec 0 (ByteBlockWriter.numBytesLeft w)); [lia|].
  fold (forget w). rewrite fillStub_forget.
  destruct (ByteBlockWriter.fillStub (len64 data) w) as [w1|]; cbn; [|reflexivity].
  rewrite rawWrite_forget.
  destruct (ByteBlockWriter.rawWrite (ByteBlockWriter.stub w1) w1) as [w2 [e2|]]; cbn.
  { rewrite (Append_latched _ e2) by reflexivity. reflexivity. }
  change (Standalone.ByteBlockWriter.set_err None (forget w2))
    with (forget (ByteBlockWriter.set_err None w2)).
  rewrite fillStub_forget.
  change (Standalone.intSize) with 8.
  destruct (ByteBlockWriter.fillStub _ (ByteBlockWriter.set_err None w2)) as [w3|];
    cbn; [|reflexivity].
  rewrite rawWrite_forget.
  destruct (ByteBlockWriter.rawWrite (ByteBlockWriter.stub w3) w3) as [w4 [e4|]]; cbn.
  { rewrite (Append_latched _ e4) by reflexivity. reflexivity. }
  destruct (make_bytes _) as [pad|]; cbn; [|reflexivity].
  change (Standalone.ByteBlockWriter.set_err None (forget w4))
    with (forget (ByteBlockWriter.set_err None w4)).
  rewrite rawWrite_forget.
  destruct (ByteBlockWriter.rawWrite pad (ByteBlockWriter.set_err None w4))
    as [w5 [e5|]]; cbn.
  { rewrite (Append_latched _ e5) by reflexivity. reflexivity. }
  unfold ByteBlockWriter.Append. cbn. rewrite Z.ltb_irrefl.
  change (Standalone.ByteBlockWriter.set_err None (forget w5))
    with (forget (ByteBlockWriter.set_numBytesLeft (len64 data)
                    (ByteBlockWriter.set_err None w5))).
  rewrite rawWrite_forget.
  destruct (ByteBlockWriter.rawWrite data _) as [w6 [e6|]]; reflexivity.
Qed.

(** The same for a whole run of blocks from fresh writers over one sink. *)
Lemma WriteAll_forget blocks w :
  obeys_contract S ->
  (ByteBlockWriter.err w = None -> ByteBlockWriter.numBytesLeft w <= 0) ->
  StandaloneWriteAll blocks (forget w) =
  '(w', es) ← WriteAll blocks w; mret (forget w', es).
Proof.
  intros C. revert w. induction blocks as [|[data align] blocks IH]; intros w Hl.
  - reflexivity.
  - cbn [StandaloneWriteAll WriteAll]. rewrite Write_forget by exact Hl.
    destruct (ByteBlockWriter.Write data align w) as [[w1 e1]|] eqn:W; cbn;
      [|reflexivity].
    rewrite IH.
    + destruct (WriteAll blocks w1) as [[w2 es]|]; reflexivity.
    + intros E1. pose proof (Write_returns_err _ _ _ _ _ W) as E.
      rewrite E1 in E. subst e1.
      rewrite (Write_finished _ _ _ _ C W). lia.
Qed.

End standalone.

Lemma Buffer_obeys_contract : obeys_contract Buffer.
Proof. intros s s' p n [= _ <-]. reflexivity. Qed.

Lemma frames_take_le pos blocks j :
  (length (frames pos (take j blocks)) <= length (frames pos blocks))%nat.
Proof.
  revert pos j. induction blocks as [|[data align] blocks IH]; intros pos j.
  - rewrite take_nil. lia.
  - destruct j as [|j]; cbn [take frames]; [cbn; lia|].
    rewrite !length_app. specialize (IH (pos + Z.of_nat (length (frame pos data align))) j).
    lia.
Qed.

Lemma Forall_take_int64 (blocks : list (list byte * Z)) j :
  Forall (fun b => in_int64 b.2) blocks ->
  Forall (fun b => in_int64 b.2) (take j blocks).
Proof. apply Forall_take. Qed.

(** A run of blocks into an empty bytes.Buffer. *)
Lemma WriteAll_fresh blocks :
  Forall (fun b => in_int64 b.2) blocks ->
  Z.of_nat (length (frames 0 blocks)) <= max_int64 ->
  exists w,
    WriteAll blocks (ByteBlockWriter.NewByteBlockWriter ([] : Buffer)) =
      Returns (w, replicate (length blocks) None) /\
    ByteBlockWriter.writer w = frames 0 blocks.
Proof.
  intros Ha Hb.
  destruct (WriteAll_Buffer blocks (ByteBlockWriter.NewByteBlockWriter ([] : Buffer)))
    as (w & R & Sw & _); try (cbn; lia); try assumption.
  - apply NewByteBlockWriter_tracks. reflexivity.
  - reflexivity.
  - exists w. split; [exact R|exact Sw].
Qed.

(** ** Latched errors *)

Lemma Writer_sticky {S : Type} `{!IoWriter S} (w : ByteBlockWriter.t S) e c :
  ByteBlockWriter.err w = Some e -> do_call c w = Returns (w, Some e).
Proof.
  intros H. destruct c; cbn.
  - apply NewBlock_latched, H.
  - rewrite (Append_latched _ _ _ H). reflexivity.
  - unfold ByteBlockWriter.AppendString. rewrite (Append_latched _ _ _ H). reflexivity.
  - apply Write_latched, H.
  - apply (Write_latched w e data align H).
Qed.

Lemma Slicer_latched r e :
  ByteBlockSlicer.err r = Some e ->
  ByteBlockSlicer.Slice r = Returns (r, ([], Some e)).
Proof. intros H. unfold ByteBlockSlicer.Slice. rewrite H. reflexivity. Qed.

(** ** The package's own tests *)

Example TestFillInt64 :
  fillInt64 0 (replicate 8 x00) = Returns [x00; x00; x00; x00; x00; x00; x00; x00] /\
  fillInt64 1 (replicate 8 x00) = Returns [x01; x00; x00; x00; x00; x00; x00; x00] /\
  fillInt64 0xF0000000000000F (replicate 8 x00) =
    Returns [x0f; x00; x00; x00; x00; x00; x00; x0f] /\
  readInt64 [x0f; x00; x00; x00; x00; x00; x00; x0f] = Returns 0xF0000000000000F.
Proof. vm_compute. repeat split. Qed.

Example TestAlignOffset :
  (fun '(align, pos) => alignOffset align pos) <$>
    [(0, 0); (0, 10); (1, 0); (-1, 10);
     (4, 0); (4, 1); (4, 2); (4, 3); (4, 4); (4, 5); (4, 6); (4, 7);
     (5, 0); (5, 1); (5, 2); (5, 3); (5, 4); (5, 5); (5, 6); (5, 7); (5, 8); (5, 9)] =
  [0; 0; 0; 0; 0; 3; 2; 1; 0; 3; 2; 1; 0; 4; 3; 2; 1; 0; 4; 3; 2; 1].
Proof. vm_compute. reflexivity. Qed.

Example TestNewBlockAndAppend :
  (ByteBlockWriter.err <$>
     do_calls [CallNewBlock 127 1; CallNewBlock 0 1]
       (ByteBlockWriter.NewByteBlockWriter ([] : Buffer))) =
    Returns (Some ErrNewBlockBeforeFinish) /\
  (ByteBlockWriter.err <$>
     do_calls [CallNewBlock 0 2; CallAppend [x00]; CallAppend [x01; x02]]
       (ByteBlockWriter.NewByteBlockWriter ([] : Buffer))) =
    Returns (Some ErrWriteMoreThanRequested).
Proof. split; vm_compute; reflexivity. Qed.

Example TestWriteAndSlice :
  exists w r,
    WriteAll test_blocks (ByteBlockWriter.NewByteBlockWriter ([] : Buffer)) =
      Returns (w, [None; None; None; None]) /\
    length (ByteBlockWriter.writer w) = 101%nat /\
    SliceN 4 (ByteBlockSlicer.NewByteBlockSlicer (ByteBlockWriter.writer w)) =
      Returns (r, [(hello, None); (world, None); (hello, None); (world, None)]).
Proof. do 2 eexists. split; [vm_compute; reflexivity|]. split; vm_compute; reflexivity. Qed.

(** * The claims *)

(** C7. Codec inverse law: for every 64-bit signed integer [n], zero,
    negative or with the high bit set, [fillInt64] stores eight bytes, least
    significant first, from which [readInt64] gives [n] back; the standalone
    variant of [fillInt64] stores the same bytes. *)
Theorem codec_inverse n out :
  in_int64 n -> (8 <= length out)%nat ->
  exists out',
    fillInt64 n out = Returns out' /\
    readInt64 out' = Returns n /\
    Standalone.fillInt64 n out = Returns out'.
Proof.
  intros Hn Ho. exists (le_bytes n ++ drop 8 out).
  rewrite Standalone_fillInt64, fillInt64_spec by exact Ho.
  repeat split. apply readInt64_le_bytes, Hn.
Qed.

Lemma codec_inverse_witness :
  in_int64 (- 2 ^ 63) /\ (8 <= length (replicate 8 x00))%nat /\
  exists out',
    fillInt64 (- 2 ^ 63) (replicate 8 x00) = Returns out' /\
    readInt64 out' = Returns (- 2 ^ 63) /\
    Standalone.fillInt64 (- 2 ^ 63) (replicate 8 x00) = Returns out'.
Proof.
  assert (H1 : in_int64 (- 2 ^ 63)) by (unfold in_int64, min_int64, max_int64; lia).
  assert (H2 : (8 <= length (replicate 8 x00))%nat) by (simpl; lia).
  split; [exact H1|]. split; [exact H2|].
  exact (codec_inverse (- 2 ^ 63) (replicate 8 x00) H1 H2).
Defined.

(** C8, as stated, fails: for the negative position [-1] and alignment [4]
    Go's truncating remainder is [-1] and [alignOffset] returns [5], which is
    not below [4]. *)
Lemma alignOffset_negative_position :
  alignOffset 4 (-1) = 5 /\ ~ (0 <= alignOffset 4 (-1) < 4).
Proof. split; [reflexivity|]. vm_compute. intros [_ H]. discriminate H. Qed.

(** C8, amended. Aligner boundary law, for an int64 [align] and any
    position.  [alignOffset align pos] is 0 when [align <= 1].  When
    [align > 1]: the result lies in [[0, align)] exactly when [pos] is not
    negative or is a multiple of [align]; the sum [pos + alignOffset align
    pos] is a multiple of [align] when [pos] is not negative, and for a
    negative [pos] as long as [align - pos % align] fits an int64; and Go's
    own [(pos + alignOffset(align, pos)) % align] is 0 for every negative
    int64 [pos], and for the others as long as the sum fits an int64. *)
Theorem alignOffset_boundary align pos :
  in_int64 align ->
  (align <= 1 -> alignOffset align pos = 0) /\
  (1 < align ->
     ((0 <= alignOffset align pos < align) <-> (0 <= pos \/ rem64 pos align = 0)) /\
     (0 <= pos \/ align - rem64 pos align <= max_int64 ->
        (pos + alignOffset align pos) mod align = 0) /\
     (in_int64 pos -> pos < 0 \/ pos + alignOffset align pos <= max_int64 ->
        rem64 (add64 pos (alignOffset align pos)) align = 0)).
Proof.
  intros Ha. split; [apply alignOffset_le_1|]. intros H1.
  destruct (Z.le_gt_cases 0 pos) as [Hp|Hp].
  - (* a position that is not negative *)
    destruct (alignOffset_pos align pos H1 Ha Hp) as [Hr Hm].
    split; [split; [intros _; left; exact Hp|intros _; exact Hr]|].
    split; [intros _; exact Hm|]. intros _ [Hn|Hb]; [lia|].
    rewrite add64_id by (unfold in_int64, min_int64, max_int64 in *; lia).
    unfold rem64. rewrite Z.rem_mod_nonneg by lia. exact Hm.
  - (* a negative position *)
    destruct (alignOffset_neg align pos H1 Hp) as (q & m & Hq & Hb & Epos & Er & Eo).
    rewrite Er, Eo. destruct (Z.eqb_spec m 0) as [E|E].
    + (* a multiple of [align] *)
      subst m. split; [split; [intros _; right; reflexivity|intros _; lia]|].
      split.
      * intros _. rewrite Z.add_0_r, Epos.
        replace (- (align * q + 0)) with ((- q) * align) by lia.
        apply Z.mod_mul. lia.
      * intros Hi _. rewrite add64_id by (rewrite Z.add_0_r; exact Hi).
        rewrite Z.add_0_r. exact Er.
    + (* the remainder is negative *)
      split.
      { split.
        - intros Hr. exfalso. revert Hr.
          unfold wrap64, in_int64, min_int64, max_int64 in *.
          Z.div_mod_to_equations. lia.
        - intros [Hn|Hz]; lia. }
      split.
      * intros [Hn|Hfit]; [lia|].
        rewrite wrap64_id by (unfold in_int64, min_int64, max_int64 in *; lia).
        replace (pos + (align + m)) with ((1 - q) * align) by lia.
        apply Z.mod_mul. lia.
      * intros Hi _. unfold add64. rewrite (Z.add_comm pos), wrap64_add_l.
        replace (align + m + pos) with ((1 - q) * align) by lia.
        rewrite wrap64_id by (unfold in_int64, min_int64, max_int64 in *; nia).
        unfold rem64. apply Z.rem_mul. lia.
Qed.

Lemma alignOffset_boundary_witness :
  in_int64 4 /\
  (0 <= alignOffset 4 5 < 4) /\ (5 + alignOffset 4 5) mod 4 = 0 /\
  rem64 (add64 (-1) (alignOffset 4 (-1))) 4 = 0.
Proof.
  assert (H1 : in_int64 4) by (unfold in_int64, min_int64, max_int64; lia).
  assert (H2 : in_int64 (-1)) by (unfold in_int64, min_int64, max_int64; lia).
  split; [exact H1|].
  destruct (alignOffset_boundary 4 5 H1) as [_ H].
  destruct (H ltac:(lia)) as (Hr & Hm & _).
  destruct (alignOffset_boundary 4 (-1) H1) as [_ H'].
  destruct (H' ltac:(lia)) as (_ & _ & Hg).
  split; [apply Hr; left; lia|]. split; [apply Hm; left; lia|].
  apply Hg; [exact H2|left; lia].
Defined.

(** C5. On a writer with no latched error, [NewBlock] called while the
    remaining-length counter is still positive fails with
    [ErrNewBlockBeforeFinish], latches it and leaves the sink and the
    counters as they were; otherwise, the sink taking each write, it writes
    the 8-byte length field, the 8-byte offset field and [offset] zero bytes
    of padding, in this order, and sets the remaining-length counter to
    [length]. *)
Theorem NewBlock_spec {S : Type} `{!IoWriter S} (w : ByteBlockWriter.t S) align len :
  ByteBlockWriter.err w = None ->
  (0 < ByteBlockWriter.numBytesLeft w ->
     ByteBlockWriter.NewBlock align len w =
     Returns (ByteBlockWriter.set_err (Some ErrNewBlockBeforeFinish) w,
              Some ErrNewBlockBeforeFinish)) /\
  (ByteBlockWriter.numBytesLeft w <= 0 ->
   length (ByteBlockWriter.stub w) = 8%nat ->
   in_int64 align -> 0 <= ByteBlockWriter.numBytesWritten w ->
   let offset := alignOffset align (ByteBlockWriter.numBytesWritten w + 16) in
   ByteBlockWriter.numBytesWritten w + 16 + offset <= max_int64 ->
   forall s1 s2 s3 : S,
     io_write (ByteBlockWriter.writer w) (le_bytes len) = (s1, (8, None)) ->
     io_write s1 (le_bytes offset) = (s2, (8, None)) ->
     io_write s2 (replicate (Z.to_nat offset) x00) = (s3, (offset, None)) ->
     ByteBlockWriter.NewBlock align len w =
     Returns (ByteBlockWriter.mk s3
                (ByteBlockWriter.numBytesWritten w + 16 + offset)
                len None (le_bytes offset), None)).
Proof.
  intros He. split.
  - intros Hl. unfold ByteBlockWriter.NewBlock. rewrite He.
    destruct (Z.ltb_spec 0 (ByteBlockWriter.numBytesLeft w)); [reflexivity|lia].
  - intros Hl Hs Ha Hn offset Hb s1 s2 s3 W1 W2 W3.
    assert (Ho : 0 <= offset) by (apply alignOffset_nonneg; [exact Ha|lia]).
    assert (E1 : add64 (add64 (ByteBlockWriter.numBytesWritten w) 8) 8 =
                 ByteBlockWriter.numBytesWritten w + 16).
    { rewrite (add64_id (ByteBlockWriter.numBytesWritten w) 8)
        by (unfold in_int64, min_int64, max_int64 in *; lia).
      rewrite add64_id by (unfold in_int64, min_int64, max_int64 in *; lia). lia. }
    rewrite (NewBlock_accepted w align len offset s1 s2 s3 8 8 offset
               He Hl Hs W1 ltac:(rewrite E1; reflexivity) W2 Ho W3).
    rewrite E1, add64_id by (unfold in_int64, min_int64, max_int64 in *; lia).
    reflexivity.
Qed.

Lemma NewBlock_spec_witness :
  ByteBlockWriter.NewBlock 4 5 (ByteBlockWriter.NewByteBlockWriter ([] : Buffer)) =
  Returns (ByteBlockWriter.mk (le_bytes 5 ++ le_bytes 0 : Buffer) 16 5 None (le_bytes 0),
           None).
Proof.
  refine (proj2 (NewBlock_spec (ByteBlockWriter.NewByteBlockWriter ([] : Buffer)) 4 5
                   eq_refl) _ eq_refl _ _ _
            (le_bytes 5) (le_bytes 5 ++ le_bytes 0) (le_bytes 5 ++ le_bytes 0)
            eq_refl eq_refl eq_refl).
  - simpl. lia.
  - unfold in_int64, min_int64, max_int64. lia.
  - simpl. lia.
  - vm_compute. discriminate.
Defined.

(** C6. On a writer with no latched error, [Append] of a chunk longer than
    the remaining-length counter fails with [ErrWriteMoreThanRequested] and
    leaves the sink as it was; otherwise, the sink taking the write, the chunk
    goes to the sink as it is and the counter decreases by its length.
    Opening a block of length 2 and appending one byte, then two, fails the
    second append. *)
Theorem Append_spec {S : Type} `{!IoWriter S} (w : ByteBlockWriter.t S) chunk :
  ByteBlockWriter.err w = None ->
  Z.of_nat (length chunk) <= max_int64 ->
  (ByteBlockWriter.numBytesLeft w < Z.of_nat (length chunk) ->
     ByteBlockWriter.Append chunk w =
     (ByteBlockWriter.set_err (Some ErrWriteMoreThanRequested) w,
      Some ErrWriteMoreThanRequested)) /\
  (Z.of_nat (length chunk) <= ByteBlockWriter.numBytesLeft w ->
   in_int64 (ByteBlockWriter.numBytesLeft w) ->
   forall s' : S,
     io_write (ByteBlockWriter.writer w) chunk =
       (s', (Z.of_nat (length chunk), None)) ->
     exists w',
       ByteBlockWriter.Append chunk w = (w', None) /\
       ByteBlockWriter.writer w' = s' /\
       ByteBlockWriter.numBytesLeft w' =
         ByteBlockWriter.numBytesLeft w - Z.of_nat (length chunk) /\
       ByteBlockWriter.err w' = None) /\
  (exists w1 w2 w3 : ByteBlockWriter.t Buffer,
     ByteBlockWriter.NewBlock 0 2 (ByteBlockWriter.NewByteBlockWriter []) =
       Returns (w1, None) /\
     ByteBlockWriter.Append [x00] w1 = (w2, None) /\
     ByteBlockWriter.Append [x01; x02] w2 =
       (w3, Some ErrWriteMoreThanRequested) /\
     ByteBlockWriter.writer w3 = ByteBlockWriter.writer w2).
Proof.
  intros He Hc. rewrite <- (len64_id chunk Hc). split; [|split].
  - intros Hl. unfold ByteBlockWriter.Append. rewrite He.
    destruct (Z.ltb_spec (ByteBlockWriter.numBytesLeft w) (len64 chunk));
      [reflexivity|lia].
  - intros Hl Hr s' W. erewrite Append_accepted by eassumption.
    eexists. split; [reflexivity|]. cbn. repeat split.
    unfold sub64. apply wrap64_id.
    rewrite (len64_id chunk Hc) in *.
    unfold in_int64, min_int64, max_int64 in *. lia.
  - pose (w0 := ByteBlockWriter.NewByteBlockWriter ([] : Buffer)).
    pose (w1 := match ByteBlockWriter.NewBlock 0 2 w0 with
                | Returns (w, _) => w
                | Panics _ => w0
                end).
    pose (w2 := (ByteBlockWriter.Append [x00] w1).1).
    pose (w3 := (ByteBlockWriter.Append [x01; x02] w2).1).
    exists w1, w2, w3.
    refine (conj _ (conj _ (conj _ _))); vm_compute; reflexivity.
Qed.

Lemma Append_spec_witness :
  exists w' : ByteBlockWriter.t Buffer,
    ByteBlockWriter.Append [x00]
      (ByteBlockWriter.mk ([] : Buffer) 0 2 None (replicate 8 x00)) = (w', None) /\
    ByteBlockWriter.writer w' = [x00] /\
    ByteBlockWriter.numBytesLeft w' = 2 - 1 /\
    ByteBlockWriter.err w' = None.
Proof.
  refine (proj1 (proj2 (Append_spec
            (ByteBlockWriter.mk ([] : Buffer) 0 2 None (replicate 8 x00)) [x00]
            eq_refl _)) _ _ [x00] eq_refl).
  - vm_compute. discriminate.
  - simpl. lia.
  - unfold in_int64, min_int64, max_int64. simpl. lia.
Defined.

(** C9. One-shot and incremental writing agree.  [Write data align] leaves
    the writer, the sink and the returned error exactly as [NewBlock align
    (len data)] followed by [Append data] does, from any starting state and
    over any sink; and over a sink that obeys the io.Writer contract the
    standalone one-shot writer, run on any sequence of blocks from a fresh
    writer, leaves the same sink, byte counter and latched error and returns
    the same errors as the incremental writer. *)
Theorem Write_one_shot_incremental {S : Type} `{!IoWriter S} :
  (forall (w : ByteBlockWriter.t S) data align,
     ByteBlockWriter.Write data align w =
     '(w1, _) ← ByteBlockWriter.NewBlock align (len64 data) w;
     mret (ByteBlockWriter.Append data w1)) /\
  (obeys_contract S ->
   forall blocks (s : S),
     StandaloneWriteAll blocks (Standalone.ByteBlockWriter.NewByteBlockWriter s) =
     '(w', es) ← WriteAll blocks (ByteBlockWriter.NewByteBlockWriter s);
     mret (forget w', es)).
Proof.
  split.
  - intros w data align. apply Write_unfold.
  - intros C blocks s.
    change (Standalone.ByteBlockWriter.NewByteBlockWriter s)
      with (forget (ByteBlockWriter.NewByteBlockWriter s)).
    apply WriteAll_forget; [exact C|]. cbn. lia.
Qed.

Lemma Write_one_shot_incremental_witness :
  obeys_contract Buffer /\
  StandaloneWriteAll test_blocks (Standalone.ByteBlockWriter.NewByteBlockWriter ([] : Buffer)) =
  '(w', es) ← WriteAll test_blocks (ByteBlockWriter.NewByteBlockWriter ([] : Buffer));
  mret (forget w', es).
Proof.
  split; [exact Buffer_obeys_contract|].
  exact (proj2 Write_one_shot_incremental Buffer_obeys_contract test_blocks []).
Defined.

(** C1. Round trip: for every sequence of (payload, align) pairs whose
    stream fits an int64 length, writing them in order into an empty buffer
    succeeds at every call, and slicing the buffer as many times as there are
    blocks returns the payloads, in order and without error; the next call
    reports the end of the stream.  The standalone writer produces the same
    buffer. *)
Theorem round_trip (blocks : list (list byte * Z)) :
  Forall (fun b => in_int64 b.2) blocks ->
  Z.of_nat (length (frames 0 blocks)) <= max_int64 ->
  exists w r,
    WriteAll blocks (ByteBlockWriter.NewByteBlockWriter ([] : Buffer)) =
      Returns (w, replicate (length blocks) None) /\
    StandaloneWriteAll blocks (Standalone.ByteBlockWriter.NewByteBlockWriter ([] : Buffer)) =
      Returns (forget w, replicate (length blocks) None) /\
    ByteBlockWriter.writer w = frames 0 blocks /\
    SliceN (length blocks)
      (ByteBlockSlicer.NewByteBlockSlicer (ByteBlockWriter.writer w)) =
      Returns (r, (fun b => (b.1, None)) <$> blocks) /\
    ByteBlockSlicer.Slice r = Returns (r, ([], Some EOF)).
Proof.
  intros Ha Hb. destruct (WriteAll_fresh blocks Ha Hb) as (w & R & Sw).
  pose proof (SliceN_frames blocks [] [] Ha) as HS. cbn zeta in HS.
  cbn [app length] in HS. change (Z.of_nat 0) with 0 in HS.
  rewrite app_nil_r in HS. specialize (HS Hb).
  eexists w, _. split; [exact R|]. split.
  { change (Standalone.ByteBlockWriter.NewByteBlockWriter ([] : Buffer))
      with (forget (ByteBlockWriter.NewByteBlockWriter ([] : Buffer))).
    rewrite WriteAll_forget; [|exact Buffer_obeys_contract|cbn; lia].
    rewrite R. reflexivity. }
  split; [exact Sw|]. rewrite Sw. unfold ByteBlockSlicer.NewByteBlockSlicer.
  split; [exact HS|].
  unfold ByteBlockSlicer.Slice. cbn. rewrite len64_id by exact Hb.
  rewrite Z.add_0_l, Z.leb_refl. reflexivity.
Qed.

Lemma round_trip_witness :
  exists w r,
    WriteAll test_blocks (ByteBlockWriter.NewByteBlockWriter ([] : Buffer)) =
      Returns (w, replicate (length test_blocks) None) /\
    StandaloneWriteAll test_blocks
      (Standalone.ByteBlockWriter.NewByteBlockWriter ([] : Buffer)) =
      Returns (forget w, replicate (length test_blocks) None) /\
    ByteBlockWriter.writer w = frames 0 test_blocks /\
    SliceN (length test_blocks)
      (ByteBlockSlicer.NewByteBlockSlicer (ByteBlockWriter.writer w)) =
      Returns (r, (fun b => (b.1, None)) <$> test_blocks) /\
    ByteBlockSlicer.Slice r = Returns (r, ([], Some EOF)).
Proof.
  apply (round_trip test_blocks).
  - unfold test_blocks.
    repeat constructor; unfold in_int64, min_int64, max_int64; simpl; lia.
  - vm_compute. discriminate.
Defined.





(** C2 fails on the slicer: the error of the last [rawSlice] in [Slice], the
    one that takes the payload, is returned but not stored in [err].  On a
    buffer whose first header asks for 100 payload bytes and is followed by a
    whole one-byte frame, the first call fails with [ErrNotEnoughBytes],
    leaves [err] empty and the cursor after the header; the second call
    returns a payload with no error and moves the cursor.  On the 21-byte
    prefix of the stream of the package's own truncation test, the second
    call returns [EOF] instead of the first call's error. *)
Theorem Slice_payload_error_not_latched :
  (let buf := le_bytes 100 ++ le_bytes 0 ++ le_bytes 1 ++ le_bytes 0 ++ [x41] in
   exists r1 r2,
     ByteBlockSlicer.Slice (ByteBlockSlicer.NewByteBlockSlicer buf) =
       Returns (r1, ([], Some ErrNotEnoughBytes)) /\
     ByteBlockSlicer.err r1 = None /\
     ByteBlockSlicer.numBytesSliced r1 = 16 /\
     ByteBlockSlicer.Slice r1 = Returns (r2, ([x41], None)) /\
     ByteBlockSlicer.numBytesSliced r2 = 33) /\
  (let buf := take 21 (frames 0 [(hello, 7)]) in
   exists r1,
     ByteBlockSlicer.Slice (ByteBlockSlicer.NewByteBlockSlicer buf) =
       Returns (r1, ([], Some ErrNotEnoughBytes)) /\
     ByteBlockSlicer.Slice r1 = Returns (r1, ([], Some EOF))).
Proof.
  split.
  - intros buf.
    pose (r1 := match ByteBlockSlicer.Slice (ByteBlockSlicer.NewByteBlockSlicer buf) with
                | Returns (r, _) => r
                | Panics _ => ByteBlockSlicer.NewByteBlockSlicer buf
                end).
    pose (r2 := match ByteBlockSlicer.Slice r1 with
                | Returns (r, _) => r
                | Panics _ => r1
                end).
    exists r1, r2.
    refine (conj _ (conj _ (conj _ (conj _ _)))); vm_compute; reflexivity.
  - intros buf.
    pose (r1 := match ByteBlockSlicer.Slice (ByteBlockSlicer.NewByteBlockSlicer buf) with
                | Returns (r, _) => r
                | Panics _ => ByteBlockSlicer.NewByteBlockSlicer buf
                end).
    exists r1. split; vm_compute; reflexivity.
Qed.

(** C10 fails on the slicer: [rawSlice] checks the upper bound only.  On the
    16-byte buffer whose header has length 0 and offset -1, [Slice] evaluates
    [data[16:15]] and panics; the same happens for a negative length, and for
    an offset so large that the cursor sum wraps around. *)
Theorem Slice_negative_header_panics :
  ByteBlockSlicer.Slice (ByteBlockSlicer.NewByteBlockSlicer (le_bytes 0 ++ le_bytes (-1))) =
    Panics SliceBoundsOutOfRange /\
  ByteBlockSlicer.Slice (ByteBlockSlicer.NewByteBlockSlicer (le_bytes (-1) ++ le_bytes 0)) =
    Panics SliceBoundsOutOfRange /\
  ByteBlockSlicer.Slice (ByteBlockSlicer.NewByteBlockSlicer (le_bytes 0 ++ le_bytes max_int64)) =
    Panics SliceBoundsOutOfRange.
Proof. refine (conj _ (conj _ _)); vm_compute; reflexivity. Qed.

(** * Further properties of the code *)

(** ** Codec *)

Lemma byte_of_int64_of_byte b : byte_of_int64 (int64_of_byte b) = b.
Proof.
  unfold byte_of_int64. pose proof (int64_of_byte_range b) as Hr.
  rewrite Z.mod_small by exact Hr. unfold int64_of_byte.
  rewrite N2Z.id, Byte.of_to_N. reflexivity.
Qed.

Lemma byte_of_int64_congr z v :
  z mod 256 = v mod 256 -> byte_of_int64 z = byte_of_int64 v.
Proof. intros H. unfold byte_of_int64. rewrite H. reflexivity. Qed.

(** X1. [readInt64] decodes any slice of at least eight bytes to an int64,
    looking at the first eight only, and [fillInt64] of the result stores
    those eight bytes again: the codec is a bijection between 8-byte strings
    and int64 values. *)
Theorem readInt64_fillInt64 (data : list byte) :
  (8 <= length data)%nat ->
  exists n,
    readInt64 data = Returns n /\ in_int64 n /\
    readInt64 (take 8 data) = Returns n /\
    forall out, (8 <= length out)%nat ->
      fillInt64 n out = Returns (take 8 data ++ drop 8 out).
Proof.
  intros H.
  destruct data as [|b0 [|b1 [|b2 [|b3 [|b4 [|b5 [|b6 [|b7 rest]]]]]]]];
    try (simpl in H; lia).
  clear H.
  pose proof (int64_of_byte_range b0) as R0.
  pose proof (int64_of_byte_range b1) as R1.
  pose proof (int64_of_byte_range b2) as R2.
  pose proof (int64_of_byte_range b3) as R3.
  pose proof (int64_of_byte_range b4) as R4.
  pose proof (int64_of_byte_range b5) as R5.
  pose proof (int64_of_byte_range b6) as R6.
  pose proof (int64_of_byte_range b7) as R7.
  assert (E0 : byte_of_int64 (int64_of_byte b0) = b0) by apply byte_of_int64_of_byte.
  assert (E1 : byte_of_int64 (int64_of_byte b1) = b1) by apply byte_of_int64_of_byte.
  assert (E2 : byte_of_int64 (int64_of_byte b2) = b2) by apply byte_of_int64_of_byte.
  assert (E3 : byte_of_int64 (int64_of_byte b3) = b3) by apply byte_of_int64_of_byte.
  assert (E4 : byte_of_int64 (int64_of_byte b4) = b4) by apply byte_of_int64_of_byte.
  assert (E5 : byte_of_int64 (int64_of_byte b5) = b5) by apply byte_of_int64_of_byte.
  assert (E6 : byte_of_int64 (int64_of_byte b6) = b6) by apply byte_of_int64_of_byte.
  assert (E7 : byte_of_int64 (int64_of_byte b7) = b7) by apply byte_of_int64_of_byte.
  set (v0 := int64_of_byte b0) in *. set (v1 := int64_of_byte b1) in *.
  set (v2 := int64_of_byte b2) in *. set (v3 := int64_of_byte b3) in *.
  set (v4 := int64_of_byte b4) in *. set (v5 := int64_of_byte b5) in *.
  set (v6 := int64_of_byte b6) in *. set (v7 := int64_of_byte b7) in *.
  set (t7 := if v7 <? 128 then v7 else v7 - 256).
  assert (T7 : -128 <= t7 < 128 /\ (t7 = v7 \/ t7 = v7 - 256))
    by (unfold t7; destruct (Z.ltb_spec v7 128); lia).
  set (n := v0 * 2 ^ 0 + v1 * 2 ^ 8 + v2 * 2 ^ 16 + v3 * 2 ^ 24 + v4 * 2 ^ 32 +
            v5 * 2 ^ 40 + v6 * 2 ^ 48 + t7 * 2 ^ 56).
  assert (Hread : forall tail,
            readInt64 (b0 :: b1 :: b2 :: b3 :: b4 :: b5 :: b6 :: b7 :: tail) =
            Returns n).
  { intros tail. unfold readInt64.
    cbn [readInt64_loop lookup list_lookup]. simpl (8 * Z.of_nat _).
    fold v0 v1 v2 v3 v4 v5 v6 v7.
    rewrite !shl64_low by lia. rewrite shl64_top by lia. fold t7.
    rewrite Z.lor_0_l.
    rewrite (lor_disjoint _ v1 8) by lia.
    rewrite (lor_disjoint _ v2 16) by lia.
    rewrite (lor_disjoint _ v3 24) by lia.
    rewrite (lor_disjoint _ v4 32) by lia.
    rewrite (lor_disjoint _ v5 40) by lia.
    rewrite (lor_disjoint _ v6 48) by lia.
    rewrite (lor_disjoint _ t7 56) by lia.
    reflexivity. }
  clearbody v0 v1 v2 v3 v4 v5 v6 v7 t7.
  exists n. split; [apply Hread|]. split; [|split; [apply Hread|]].
  { unfold in_int64, min_int64, max_int64, n. lia. }
  intros out Ho. rewrite fillInt64_spec by exact Ho. do 2 f_equal.
  unfold le_bytes. cbn [le_bytes_from take].
  unfold sar64. rewrite !Z.shiftr_div_pow2 by lia. change (2 ^ 8) with 256.
  repeat f_equal.
  - rewrite <- E0. apply byte_of_int64_congr. unfold n.
    Z.div_mod_to_equations. lia.
  - rewrite <- E1. apply byte_of_int64_congr. unfold n.
    Z.div_mod_to_equations. lia.
  - rewrite <- E2. apply byte_of_int64_congr. unfold n.
    Z.div_mod_to_equations. lia.
  - rewrite <- E3. apply byte_of_int64_congr. unfold n.
    Z.div_mod_to_equations. lia.
  - rewrite <- E4. apply byte_of_int64_congr. unfold n.
    Z.div_mod_to_equations. lia.
  - rewrite <- E5. apply byte_of_int64_congr. unfold n.
    Z.div_mod_to_equations. lia.
  - rewrite <- E6. apply byte_of_int64_congr. unfold n.
    Z.div_mod_to_equations. lia.
  - rewrite <- E7. apply byte_of_int64_congr. unfold n.
    Z.div_mod_to_equations. lia.
Qed.

Lemma readInt64_fillInt64_witness :
  (8 <= length (replicate 8 xff))%nat /\
  exists n,
    readInt64 (replicate 8 xff) = Returns n /\ in_int64 n /\
    readInt64 (take 8 (replicate 8 xff)) = Returns n /\
    forall out, (8 <= length out)%nat ->
      fillInt64 n out = Returns (take 8 (replicate 8 xff) ++ drop 8 out).
Proof.
  assert (H : (8 <= length (replicate 8 xff))%nat) by (simpl; lia).
  split; [exact H|]. exact (readInt64_fillInt64 (replicate 8 xff) H).
Defined.

(** ** Aligner *)

(** X2. For a position that is not negative and [align > 1], the padding
    [alignOffset] returns is the least one that reaches a multiple of
    [align]: it is not negative, the position it leads to is a multiple of
    [align], and no smaller padding does that; it is 0 exactly on an aligned
    position. *)
Theorem alignOffset_least align pos :
  in_int64 align -> 1 < align -> 0 <= pos ->
  0 <= alignOffset align pos /\
  (pos + alignOffset align pos) mod align = 0 /\
  (forall k, 0 <= k -> (pos + k) mod align = 0 -> alignOffset align pos <= k) /\
  (pos mod align = 0 <-> alignOffset align pos = 0).
Proof.
  intros Ha H1 Hp.
  destruct (alignOffset_pos align pos H1 Ha Hp) as [Hr Ho].
  split; [lia|]. split; [exact Ho|]. split.
  - intros k Hk Hm.
    destruct (Z.le_gt_cases (alignOffset align pos) k) as [|Hlt]; [assumption|].
    exfalso.
    apply Z.mod_divide in Hm; [|lia]. apply Z.mod_divide in Ho; [|lia].
    destruct Hm as [q1 Hq1]. destruct Ho as [q2 Hq2].
    assert (E : alignOffset align pos - k = (q2 - q1) * align) by lia.
    assert (0 < q2 - q1) by nia. nia.
  - split.
    + intros H0. unfold alignOffset, rem64.
      destruct (Z.leb_spec align 1); [reflexivity|].
      rewrite Z.rem_mod_nonneg by lia. rewrite H0. reflexivity.
    + intros E. rewrite E, Z.add_0_r in Ho. exact Ho.
Qed.

Lemma alignOffset_least_witness :
  0 <= alignOffset 8 37 /\
  (37 + alignOffset 8 37) mod 8 = 0 /\
  (forall k, 0 <= k -> (37 + k) mod 8 = 0 -> alignOffset 8 37 <= k) /\
  (37 mod 8 = 0 <-> alignOffset 8 37 = 0).
Proof.
  apply (alignOffset_least 8 37).
  - unfold in_int64, min_int64, max_int64. lia.
  - lia.
  - lia.
Defined.

(** ** Latched errors *)

Lemma do_calls_latched {S : Type} `{!IoWriter S} (w : ByteBlockWriter.t S) e cs :
  ByteBlockWriter.err w = Some e -> do_calls cs w = Returns w.
Proof.
  intros H. induction cs as [|c cs IH]; [reflexivity|].
  cbn [do_calls]. rewrite (Writer_sticky w e c H). cbn. exact IH.
Qed.

(** X3. Once a writer has an error latched, every method ([NewBlock],
    [Append], [AppendString], [Write], [WriteString]) returns that error and
    leaves the writer, counters and sink included, as it was, over any sink
    and for any sequence of further calls; the same holds for [Write] of the
    standalone writer. *)
Theorem writer_error_is_sticky {S : Type} `{!IoWriter S}
    (w : ByteBlockWriter.t S) (ws : Standalone.ByteBlockWriter.t S) e :
  (ByteBlockWriter.err w = Some e ->
     (forall c, do_call c w = Returns (w, Some e)) /\
     (forall cs, do_calls cs w = Returns w)) /\
  (Standalone.ByteBlockWriter.err ws = Some e ->
     forall data align,
       Standalone.ByteBlockWriter.Write data align ws = Returns (ws, Some e)).
Proof.
  split.
  - intros H. split.
    + intros c. apply Writer_sticky, H.
    + intros cs. apply (do_calls_latched w e cs H).
  - intros H data align. unfold Standalone.ByteBlockWriter.Write.
    rewrite H. reflexivity.
Qed.

Lemma writer_error_is_sticky_witness :
  do_calls [CallWrite hello 4; CallNewBlock 0 1; CallAppend world]
    (ByteBlockWriter.mk (mkLimited [] 3) 0 0 (Some (ErrSink 0)) (replicate 8 x00)) =
  Returns (ByteBlockWriter.mk (mkLimited [] 3) 0 0 (Some (ErrSink 0)) (replicate 8 x00)).
Proof.
  exact (proj2 (proj1 (writer_error_is_sticky
           (ByteBlockWriter.mk (mkLimited [] 3) 0 0 (Some (ErrSink 0)) (replicate 8 x00))
           (Standalone.ByteBlockWriter.mk (mkLimited [] 3) 0 None []) (ErrSink 0))
           eq_refl) [CallWrite hello 4; CallNewBlock 0 1; CallAppend world]).
Defined.

Lemma SliceN_latched r e count :
  ByteBlockSlicer.err r = Some e ->
  SliceN count r = Returns (r, replicate count ([], Some e)).
Proof.
  intros H. induction count as [|count IH]; [reflexivity|].
  cbn [SliceN]. rewrite (Slicer_latched r e H). cbn. rewrite IH. reflexivity.
Qed.

(** A frame cut inside its header or its padding: the error is stored. *)
Lemma Slice_cut_latched pre bl bo len off payload m :
  length bl = 8%nat -> length bo = 8%nat ->
  readInt64 bl = Returns len -> readInt64 bo = Returns off ->
  0 <= off -> len = Z.of_nat (length payload) ->
  let F := bl ++ bo ++ replicate (Z.to_nat off) x00 ++ payload in
  (0 < m)%nat -> Z.of_nat m < 16 + off ->
  Z.of_nat (length pre) + Z.of_nat (length F) <= max_int64 ->
  exists r',
    ByteBlockSlicer.Slice
      (ByteBlockSlicer.mk (pre ++ take m F) (Z.of_nat (length pre)) None) =
    Returns (r', ([], Some ErrNotEnoughBytes)) /\
    ByteBlockSlicer.err r' = Some ErrNotEnoughBytes.
Proof.
  intros Hbl Hbo Hrl Hro Ho Hlen F Hm Hm' Hb.
  assert (HF : Z.of_nat (length F) = 16 + off + len).
  { unfold F. rewrite !length_app, Hbl, Hbo, length_replicate. lia. }
  set (dat := pre ++ take m F).
  assert (Hdl : Z.of_nat (length dat) = Z.of_nat (length pre) + Z.of_nat m).
  { unfold dat. rewrite length_app, length_take. lia. }
  destruct (Nat.lt_ge_cases m 8) as [H8|H8].
  { unfold ByteBlockSlicer.Slice.
    cbn [ByteBlockSlicer.err ByteBlockSlicer.data ByteBlockSlicer.numBytesSliced].
    rewrite len64_id by lia.
    destruct (Z.leb_spec (Z.of_nat (length dat)) (Z.of_nat (length pre))); [lia|].
    rewrite rawSlice_short by lia. cbn. eexists. split; reflexivity. }
  destruct (Nat.lt_ge_cases m 16) as [H16|H16].
  { assert (Hd : dat = pre ++ bl ++
                   take (m - 8) (bo ++ replicate (Z.to_nat off) x00 ++ payload)).
    { unfold dat, F. rewrite take_app_ge by lia. rewrite Hbl. reflexivity. }
    unfold ByteBlockSlicer.Slice.
    cbn [ByteBlockSlicer.err ByteBlockSlicer.data ByteBlockSlicer.numBytesSliced].
    rewrite len64_id by lia.
    destruct (Z.leb_spec (Z.of_nat (length dat)) (Z.of_nat (length pre))); [lia|].
    rewrite (rawSlice_app dat _ None pre bl _ 8 Hd)
      by (try reflexivity; lia).
    cbn. rewrite Hrl. unfold ByteBlockSlicer.set_err. cbn.
    rewrite rawSlice_short by lia. cbn. eexists. split; reflexivity. }
  assert (Hd : dat = pre ++ bl ++ bo ++
                 take (m - 16) (replicate (Z.to_nat off) x00 ++ payload)).
  { unfold dat, F. rewrite take_app_ge by lia. rewrite Hbl.
    rewrite take_app_ge by lia. rewrite Hbo.
    replace (m - 8 - 8)%nat with (m - 16)%nat by lia. reflexivity. }
  rewrite (Slice_fields dat pre bl bo len off _ Hd) by (try assumption; lia).
  rewrite rawSlice_short by lia. cbn. eexists. split; reflexivity.
Qed.

(** X4. A slicer over a stream that ends inside the header or the padding of
    a frame fails with [ErrNotEnoughBytes] and keeps it: every later call
    returns the same error, no data, and leaves the slicer as it is. *)
Theorem Slice_header_error_is_sticky pre pos data align m count :
  0 <= alignOffset align (pos + 16) ->
  Z.of_nat (length data) + 16 + alignOffset align (pos + 16) +
    Z.of_nat (length pre) <= max_int64 ->
  (0 < m)%nat -> Z.of_nat m < 16 + alignOffset align (pos + 16) ->
  exists r',
    ByteBlockSlicer.Slice
      (ByteBlockSlicer.mk (pre ++ take m (frame pos data align))
         (Z.of_nat (length pre)) None) =
      Returns (r', ([], Some ErrNotEnoughBytes)) /\
    SliceN count r' = Returns (r', replicate count ([], Some ErrNotEnoughBytes)).
Proof.
  intros Ho Hb Hm Hm'.
  pose proof (length_frame pos data align Ho) as HF.
  destruct (Slice_cut_latched pre (le_bytes (Z.of_nat (length data)))
              (le_bytes (alignOffset align (pos + 16)))
              (Z.of_nat (length data)) (alignOffset align (pos + 16)) data m)
    as (r' & HS & He);
    try apply length_le_bytes; try assumption; try reflexivity.
  - apply readInt64_le. unfold in_int64, min_int64, max_int64 in *. lia.
  - apply readInt64_le. unfold in_int64, min_int64, max_int64 in *. lia.
  - fold (frame pos data align). lia.
  - exists r'. split; [exact HS|]. apply SliceN_latched, He.
Qed.

Lemma Slice_header_error_is_sticky_witness :
  exists r',
    ByteBlockSlicer.Slice
      (ByteBlockSlicer.mk ([] ++ take 18 (frame 0 hello 7)) (Z.of_nat (length (@nil byte))) None) =
      Returns (r', ([], Some ErrNotEnoughBytes)) /\
    SliceN 3 r' = Returns (r', replicate 3 ([], Some ErrNotEnoughBytes)).
Proof.
  apply (Slice_header_error_is_sticky [] 0 hello 7 18 3).
  - vm_compute. discriminate.
  - vm_compute. discriminate.
  - lia.
  - vm_compute. reflexivity.
Defined.

(** ** The slicer on arbitrary buffers *)

Lemma rawSlice_inv dat cur e0 n r' d e :
  0 <= cur <= Z.of_nat (length dat) -> Z.of_nat (length dat) <= max_int64 ->
  ByteBlockSlicer.rawSlice n (ByteBlockSlicer.mk dat cur e0) = Returns (r', (d, e)) ->
  (e = Some ErrNotEnoughBytes /\ d = [] /\ r' = ByteBlockSlicer.mk dat cur e0) \/
  (e = None /\ exists cur',
     r' = ByteBlockSlicer.mk dat cur' e0 /\
     cur <= cur' <= Z.of_nat (length dat) /\
     d = take (Z.to_nat (cur' - cur)) (drop (Z.to_nat cur) dat)).
Proof.
  intros Hc Hb. unfold ByteBlockSlicer.rawSlice.
  cbn [ByteBlockSlicer.data ByteBlockSlicer.numBytesSliced].
  rewrite len64_id by exact Hb.
  destruct (Z.ltb_spec (Z.of_nat (length dat)) (add64 cur n)) as [Hlt|Hge].
  { intros [= <- <- <-]. left. auto. }
  unfold subslice.
  destruct (Z.leb_spec 0 cur); [|lia].
  destruct (Z.leb_spec cur (add64 cur n)); [|discriminate].
  destruct (Z.leb_spec (add64 cur n) (Z.of_nat (length dat))); [|lia].
  cbn. intros [= <- <- <-]. right. split; [reflexivity|].
  exists (add64 cur n). split; [reflexivity|]. split; [lia|reflexivity].
Qed.

(** X5. Whatever the buffer holds: when [Slice] returns, the buffer is the
    same, the cursor has not moved back and is still inside the buffer; a
    payload returned without error is a contiguous part of the buffer that
    starts at least 16 bytes after the old cursor and ends at the new one;
    with [EOF] the slicer is unchanged; any other error is
    [ErrNotEnoughBytes] and comes with no data. *)
Theorem Slice_returns_a_view dat cur r' d e :
  0 <= cur <= Z.of_nat (length dat) -> Z.of_nat (length dat) <= max_int64 ->
  ByteBlockSlicer.Slice (ByteBlockSlicer.mk dat cur None) = Returns (r', (d, e)) ->
  ByteBlockSlicer.data r' = dat /\
  (cur <= ByteBlockSlicer.numBytesSliced r' <= Z.of_nat (length dat)) /\
  match e with
  | None =>
      ByteBlockSlicer.err r' = None /\
      exists start,
        cur + 16 <= start <= ByteBlockSlicer.numBytesSliced r' /\
        d = take (Z.to_nat (ByteBlockSlicer.numBytesSliced r' - start))
              (drop (Z.to_nat start) dat)
  | Some EOF => r' = ByteBlockSlicer.mk dat cur None /\ d = []
  | Some e' => e' = ErrNotEnoughBytes /\ d = []
  end.
Proof.
  intros Hc Hb. unfold ByteBlockSlicer.Slice.
  cbn [ByteBlockSlicer.err ByteBlockSlicer.data ByteBlockSlicer.numBytesSliced].
  rewrite len64_id by exact Hb.
  destruct (Z.leb_spec (Z.of_nat (length dat)) cur).
  { intros [= <- <- <-]. cbn. repeat split; lia. }
  (* Length *)
  destruct (ByteBlockSlicer.rawSlice 8 _) as [[r1 [b1 e1]]|] eqn:R1; [|discriminate].
  pose proof R1 as I1. apply rawSlice_inv in I1; [|exact Hc|exact Hb].
  destruct I1 as [(-> & -> & ->)|(-> & c1 & -> & Hc1 & Hb1)]; cbn.
  { intros [= <- <- <-]. cbn. repeat split; lia. }
  assert (L1 : c1 = cur + 8).
  { revert R1. unfold ByteBlockSlicer.rawSlice. cbn.
    destruct (_ <? _); [discriminate|]. unfold subslice.
    destruct (_ && _); [|discriminate]. cbn. intros [= <- _].
    unfold add64, wrap64, max_int64 in *. Z.div_mod_to_equations. lia. }
  clear R1.
  destruct (readInt64 b1) as [len|]; [|discriminate]. cbn.
  unfold ByteBlockSlicer.set_err. cbn.
  (* Offset *)
  destruct (ByteBlockSlicer.rawSlice 8 _) as [[r2 [b2 e2]]|] eqn:R2; [|discriminate].
  pose proof R2 as I2. apply rawSlice_inv in I2; [|lia|exact Hb].
  destruct I2 as [(-> & -> & ->)|(-> & c2 & -> & Hc2 & Hb2)]; cbn.
  { intros [= <- <- <-]. cbn. repeat split; lia. }
  assert (L2 : c2 = c1 + 8).
  { revert R2. unfold ByteBlockSlicer.rawSlice. cbn.
    destruct (_ <? _); [discriminate|]. unfold subslice.
    destruct (_ && _); [|discriminate]. cbn. intros [= <- _].
    unfold add64, wrap64, max_int64 in *. Z.div_mod_to_equations. lia. }
  clear R2.
  destruct (readInt64 b2) as [off|]; [|discriminate]. cbn.
  unfold ByteBlockSlicer.set_err. cbn.
  (* Padding *)
  destruct (ByteBlockSlicer.rawSlice off _) as [[r3 [b3 e3]]|] eqn:R3; [|discriminate].
  pose proof R3 as I3. apply rawSlice_inv in I3; [|lia|exact Hb].
  destruct I3 as [(-> & -> & ->)|(-> & c3 & -> & Hc3 & Hb3)]; cbn.
  { intros [= <- <- <-]. cbn. repeat split; lia. }
  clear R3.
  (* Data *)
  intros R4. apply rawSlice_inv in R4; [|lia|exact Hb].
  destruct R4 as [(-> & -> & ->)|(-> & c4 & -> & Hc4 & Hb4)]; cbn.
  { repeat split; lia. }
  split; [reflexivity|]. split; [lia|]. split; [reflexivity|].
  exists c3. split; [lia|exact Hb4].
Qed.

Lemma Slice_returns_a_view_witness :
  exists r' d e,
    ByteBlockSlicer.Slice (ByteBlockSlicer.mk (frames 0 test_blocks) 21 None) =
      Returns (r', (d, e)) /\
    ByteBlockSlicer.data r' = frames 0 test_blocks /\
    (21 <= ByteBlockSlicer.numBytesSliced r' <= Z.of_nat (length (frames 0 test_blocks))).
Proof.
  pose (x := match ByteBlockSlicer.Slice (ByteBlockSlicer.mk (frames 0 test_blocks) 21 None) with
             | Returns x => x
             | Panics _ => (ByteBlockSlicer.mk [] 0 None, ([], None))
             end).
  assert (R : ByteBlockSlicer.Slice (ByteBlockSlicer.mk (frames 0 test_blocks) 21 None) =
              Returns (x.1, (x.2.1, x.2.2))) by (vm_compute; reflexivity).
  exists x.1, x.2.1, x.2.2. split; [exact R|].
  destruct (Slice_returns_a_view (frames 0 test_blocks) 21 x.1 x.2.1 x.2.2) as (H1 & H2 & _).
  - vm_compute. split; discriminate.
  - vm_compute. discriminate.
  - exact R.
  - split; [exact H1|exact H2].
Defined.

Lemma Slice_raw pre len off pad payload post :
  off = Z.of_nat (length pad) -> len = Z.of_nat (length payload) ->
  Z.of_nat (length (pre ++ le_bytes len ++ le_bytes off ++ pad ++ payload ++ post))
    <= max_int64 ->
  ByteBlockSlicer.Slice
    (ByteBlockSlicer.mk (pre ++ le_bytes len ++ le_bytes off ++ pad ++ payload ++ post)
       (Z.of_nat (length pre)) None) =
  Returns (ByteBlockSlicer.mk
             (pre ++ le_bytes len ++ le_bytes off ++ pad ++ payload ++ post)
             (Z.of_nat (length pre) + 16 + off + len) None,
           (payload, None)).
Proof.
  intros Ho Hl Hb.
  set (dat := pre ++ le_bytes len ++ le_bytes off ++ pad ++ payload ++ post) in *.
  assert (Hlen : Z.of_nat (length dat) =
                 Z.of_nat (length pre) + 16 + off + len + Z.of_nat (length post)).
  { unfold dat. rewrite !length_app, !length_le_bytes. lia. }
  rewrite (Slice_header dat pre len off (pad ++ payload ++ post) eq_refl)
    by (try exact Hb; unfold in_int64, min_int64, max_int64 in *; lia).
  rewrite (rawSlice_app dat _ None (pre ++ le_bytes len ++ le_bytes off)
             pad (payload ++ post) off);
    [| unfold dat; rewrite <- !app_assoc; reflexivity
     | rewrite !length_app, !length_le_bytes; lia
     | exact Ho | exact Hb].
  unfold ByteBlockSlicer.set_err. cbn.
  rewrite (rawSlice_app dat _ None
             (pre ++ le_bytes len ++ le_bytes off ++ pad) payload post len);
    [| unfold dat; rewrite <- !app_assoc; reflexivity
     | rewrite !length_app, !length_le_bytes; lia
     | exact Hl | exact Hb].
  do 3 f_equal. lia.
Qed.

(** X6. [Slice] never interprets the padding and does not need the payload
    to be aligned: a frame with any [off] bytes of padding, zero or not, at
    any position of a buffer is decoded to its payload, and the cursor moves
    to the end of the frame. *)
Theorem Slice_skips_any_padding pre len off pad payload post :
  off = Z.of_nat (length pad) -> len = Z.of_nat (length payload) ->
  Z.of_nat (length (pre ++ le_bytes len ++ le_bytes off ++ pad ++ payload ++ post))
    <= max_int64 ->
  ByteBlockSlicer.Slice
    (ByteBlockSlicer.mk (pre ++ le_bytes len ++ le_bytes off ++ pad ++ payload ++ post)
       (Z.of_nat (length pre)) None) =
  Returns (ByteBlockSlicer.mk
             (pre ++ le_bytes len ++ le_bytes off ++ pad ++ payload ++ post)
             (Z.of_nat (length pre) + 16 + off + len) None,
           (payload, None)).
Proof. apply Slice_raw. Qed.

Lemma Slice_skips_any_padding_witness :
  ByteBlockSlicer.Slice
    (ByteBlockSlicer.mk ([x2a] ++ le_bytes 5 ++ le_bytes 2 ++ [xff; xfe] ++ hello ++ world)
       (Z.of_nat (length [x2a])) None) =
  Returns (ByteBlockSlicer.mk
             ([x2a] ++ le_bytes 5 ++ le_bytes 2 ++ [xff; xfe] ++ hello ++ world)
             (Z.of_nat (length [x2a]) + 16 + 2 + 5) None,
           (hello, None)).
Proof.
  apply (Slice_skips_any_padding [x2a] 5 2 [xff; xfe] hello world).
  - reflexivity.
  - reflexivity.
  - vm_compute. discriminate.
Defined.

(** ** Building a block in chunks *)

Lemma do_calls_appends chunks (w : ByteBlockWriter.t Buffer) :
  ByteBlockWriter.err w = None ->
  ByteBlockWriter.numBytesWritten w = Z.of_nat (length (ByteBlockWriter.writer w)) ->
  Z.of_nat (length (concat chunks)) <= ByteBlockWriter.numBytesLeft w ->
  in_int64 (ByteBlockWriter.numBytesLeft w) ->
  Z.of_nat (length (ByteBlockWriter.writer w)) + Z.of_nat (length (concat chunks))
    <= max_int64 ->
  do_calls (CallAppend <$> chunks) w =
  Returns (ByteBlockWriter.mk
             (ByteBlockWriter.writer w ++ concat chunks)
             (ByteBlockWriter.numBytesWritten w + Z.of_nat (length (concat chunks)))
             (ByteBlockWriter.numBytesLeft w - Z.of_nat (length (concat chunks)))
             None (ByteBlockWriter.stub w)).
Proof.
  revert w. induction chunks as [|c chunks IH]; intros w He Hn Hl Hr Hb.
  - cbn. rewrite app_nil_r, Z.add_0_r, Z.sub_0_r. destruct w; cbn in *. subst.
    reflexivity.
  - cbn [fmap list_fmap concat do_calls do_call] in *. rewrite length_app in *.
    assert (Hc : len64 c = Z.of_nat (length c)) by (apply len64_id; lia).
    erewrite Append_accepted; [|exact He|rewrite Hc; lia|reflexivity].
    cbn.
    rewrite add64_id by (unfold in_int64, min_int64, max_int64 in *; lia).
    unfold sub64.
    rewrite wrap64_id by (unfold in_int64, min_int64, max_int64 in *; lia).
    rewrite IH; cbn; try reflexivity;
      try (rewrite ?length_app; unfold in_int64, min_int64, max_int64 in *; lia).
    rewrite <- app_assoc. do 2 f_equal; lia.
Qed.

(** X7. Over a bytes.Buffer, opening a block of the total length and
    appending the payload in any number of chunks leaves the writer and the
    buffer exactly as one [Write] of the concatenated payload does. *)
Theorem chunked_append_is_Write (w : ByteBlockWriter.t Buffer) chunks align :
  tracks w -> ByteBlockWriter.err w = None ->
  ByteBlockWriter.numBytesLeft w <= 0 -> in_int64 align ->
  Z.of_nat (length (ByteBlockWriter.writer w)) +
    Z.of_nat (length (frame (Z.of_nat (length (ByteBlockWriter.writer w)))
                        (concat chunks) align)) <= max_int64 ->
  exists w',
    ByteBlockWriter.Write (concat chunks) align w = Returns (w', None) /\
    do_calls (CallNewBlock align (Z.of_nat (length (concat chunks))) ::
              (CallAppend <$> chunks)) w = Returns w'.
Proof.
  intros T He Hl Ha Hb.
  set (pos := Z.of_nat (length (ByteBlockWriter.writer w))) in *.
  assert (Ho : 0 <= alignOffset align (pos + 16))
    by (apply alignOffset_nonneg; [exact Ha|unfold pos; lia]).
  pose proof (length_frame pos (concat chunks) align Ho) as HF.
  eexists. split; [apply (Write_Buffer w (concat chunks) align T He Hl Ha Hb)|].
  cbn [do_calls do_call].
  rewrite (NewBlock_Buffer w align _ T He Hl Ha) by (fold pos; lia).
  cbn. fold pos.
  rewrite do_calls_appends; cbn;
    rewrite ?length_app, ?length_le_bytes, ?length_replicate;
    try reflexivity;
    try (unfold in_int64, min_int64, max_int64, pos in *; lia).
  rewrite HF, Z.sub_diag. unfold frame. rewrite <- !app_assoc.
  do 2 f_equal. lia.
Qed.

Lemma chunked_append_is_Write_witness :
  exists w',
    ByteBlockWriter.Write (concat [[x68; x65]; []; [x6c; x6c; x6f]]) 8
      (ByteBlockWriter.NewByteBlockWriter ([] : Buffer)) = Returns (w', None) /\
    do_calls (CallNewBlock 8 (Z.of_nat (length (concat [[x68; x65]; []; [x6c; x6c; x6f]]))) ::
              (CallAppend <$> [[x68; x65]; []; [x6c; x6c; x6f]]))
      (ByteBlockWriter.NewByteBlockWriter ([] : Buffer)) = Returns w'.
Proof.
  apply (chunked_append_is_Write (ByteBlockWriter.NewByteBlockWriter ([] : Buffer))
           [[x68; x65]; []; [x6c; x6c; x6f]] 8).
  - split; vm_compute; reflexivity.
  - reflexivity.
  - vm_compute. discriminate.
  - unfold in_int64, min_int64, max_int64. lia.
  - vm_compute. discriminate.
Defined.

(** ** A negative block length *)

(** X8. [NewBlock] does not reject a negative length.  On a writer over a
    bytes.Buffer with no error and no open block it succeeds, writes the
    header and the padding and leaves the remaining-length counter negative:
    every [Append] after it, even of an empty chunk, fails with
    [ErrWriteMoreThanRequested], and [Slice] panics on the frame that was
    written. *)
Theorem NewBlock_negative_length (w : ByteBlockWriter.t Buffer) align len :
  tracks w -> ByteBlockWriter.err w = None ->
  ByteBlockWriter.numBytesLeft w <= 0 -> in_int64 align ->
  in_int64 len -> len < 0 ->
  let pos := Z.of_nat (length (ByteBlockWriter.writer w)) + 16 in
  pos + alignOffset align pos <= max_int64 ->
  exists w',
    ByteBlockWriter.NewBlock align len w = Returns (w', None) /\
    ByteBlockWriter.numBytesLeft w' = len /\
    (forall chunk, Z.of_nat (length chunk) <= max_int64 ->
       ByteBlockWriter.Append chunk w' =
       (ByteBlockWriter.set_err (Some ErrWriteMoreThanRequested) w',
        Some ErrWriteMoreThanRequested)) /\
    ByteBlockSlicer.Slice
      (ByteBlockSlicer.mk (ByteBlockWriter.writer w')
         (Z.of_nat (length (ByteBlockWriter.writer w))) None) =
    Panics SliceBoundsOutOfRange.
Proof.
  intros T He Hl Ha Hr Hneg pos Hb.
  set (off := alignOffset align pos) in *.
  assert (Ho : 0 <= off) by (apply alignOffset_nonneg; [exact Ha|unfold pos; lia]).
  eexists. split; [apply (NewBlock_Buffer w align len T He Hl Ha Hb)|].
  cbn [ByteBlockWriter.numBytesLeft ByteBlockWriter.writer]. fold pos. fold off.
  split; [reflexivity|]. split.
  - intros chunk Hc. unfold ByteBlockWriter.Append. cbn.
    rewrite len64_id by exact Hc.
    destruct (Z.ltb_spec len (Z.of_nat (length chunk))); [reflexivity|lia].
  - set (dat := ByteBlockWriter.writer w ++ le_bytes len ++ le_bytes off ++
                replicate (Z.to_nat off) x00).
    assert (Hlen : Z.of_nat (length dat) = pos + off).
    { unfold dat. rewrite !length_app, !length_le_bytes, length_replicate.
      unfold pos. lia. }
    assert (Hio : in_int64 off)
      by (unfold in_int64, min_int64, max_int64, pos in *; lia).
    assert (Hd : dat = ByteBlockWriter.writer w ++ le_bytes len ++ le_bytes off ++
                   (replicate (Z.to_nat off) x00 ++ []))
      by (unfold dat; rewrite app_nil_r; reflexivity).
    rewrite (Slice_header dat (ByteBlockWriter.writer w) len off _ Hd Hr Hio)
      by lia.
    rewrite (rawSlice_app dat _ None
               (ByteBlockWriter.writer w ++ le_bytes len ++ le_bytes off)
               (replicate (Z.to_nat off) x00) [] off);
      [| unfold dat; rewrite app_nil_r, <- !app_assoc; reflexivity
       | rewrite !length_app, !length_le_bytes; lia
       | rewrite length_replicate; lia | lia].
    unfold ByteBlockSlicer.set_err. cbn.
    unfold ByteBlockSlicer.rawSlice. cbn.
    rewrite len64_id by lia.
    rewrite add64_id by (unfold in_int64, min_int64, max_int64, pos in *; lia).
    destruct (Z.ltb_spec (Z.of_nat (length dat))
                (Z.of_nat (length (ByteBlockWriter.writer w)) + 8 + 8 + off + len));
      [unfold pos in *; lia|].
    unfold subslice.
    destruct (Z.leb_spec 0 (Z.of_nat (length (ByteBlockWriter.writer w)) + 8 + 8 + off));
      [|lia].
    destruct (Z.leb_spec (Z.of_nat (length (ByteBlockWriter.writer w)) + 8 + 8 + off)
                (Z.of_nat (length (ByteBlockWriter.writer w)) + 8 + 8 + off + len));
      [lia|].
    reflexivity.
Qed.

Lemma NewBlock_negative_length_witness :
  exists w',
    ByteBlockWriter.NewBlock 4 (-1) (ByteBlockWriter.NewByteBlockWriter ([] : Buffer)) =
      Returns (w', None) /\
    ByteBlockWriter.numBytesLeft w' = -1 /\
    ByteBlockSlicer.Slice
      (ByteBlockSlicer.mk (ByteBlockWriter.writer w')
         (Z.of_nat (length (ByteBlockWriter.writer
                              (ByteBlockWriter.NewByteBlockWriter ([] : Buffer))))) None) =
    Panics SliceBoundsOutOfRange.
Proof.
  destruct (NewBlock_negative_length
              (ByteBlockWriter.NewByteBlockWriter ([] : Buffer)) 4 (-1))
    as (w' & H1 & H2 & _ & H4).
  - split; vm_compute; reflexivity.
  - reflexivity.
  - vm_compute. discriminate.
  - unfold in_int64, min_int64, max_int64. lia.
  - unfold in_int64, min_int64, max_int64. lia.
  - lia.
  - vm_compute. discriminate.
  - exists w'. split; [exact H1|]. split; [exact H2|exact H4].
Defined.

(** ** Streams put one after the other *)

Lemma raw_frames_cons f fs : raw_frames (f :: fs) = raw_frame f ++ raw_frames fs.
Proof. reflexivity. Qed.

Lemma SliceN_raw fs pre post :
  Z.of_nat (length (pre ++ raw_frames fs ++ post)) <= max_int64 ->
  SliceN (length fs)
    (ByteBlockSlicer.mk (pre ++ raw_frames fs ++ post) (Z.of_nat (length pre)) None) =
  Returns (ByteBlockSlicer.mk (pre ++ raw_frames fs ++ post)
             (Z.of_nat (length pre) + Z.of_nat (length (raw_frames fs))) None,
           (fun f => (f.2, None)) <$> fs).
Proof.
  revert pre. induction fs as [|[pad payload] fs IH]; intros pre Hb.
  - cbn. rewrite Z.add_0_r. reflexivity.
  - rewrite raw_frames_cons in *. cbn [length SliceN fmap list_fmap].
    unfold raw_frame in *. cbn [fst snd] in *.
    rewrite <- !app_assoc in *.
    rewrite Slice_raw by (try reflexivity; exact Hb). cbn.
    specialize (IH (pre ++ le_bytes (Z.of_nat (length payload)) ++
                      le_bytes (Z.of_nat (length pad)) ++ pad ++ payload)).
    rewrite <- !app_assoc in IH.
    replace (Z.of_nat (length (pre ++ le_bytes (Z.of_nat (length payload)) ++
               le_bytes (Z.of_nat (length pad)) ++ pad ++ payload)))
      with (Z.of_nat (length pre) + 16 + Z.of_nat (length pad) +
            Z.of_nat (length payload)) in IH
      by (rewrite !length_app, !length_le_bytes; lia).
    rewrite IH by exact Hb. cbn. do 3 f_equal.
    rewrite !length_app, !length_le_bytes. lia.
Qed.

Lemma frames_raw_of pos blocks :
  Forall (fun b => in_int64 b.2) blocks -> 0 <= pos ->
  frames pos blocks = raw_frames (raw_of pos blocks) /\
  (fun f : list byte * list byte => (f.2, @None error)) <$> raw_of pos blocks =
    (fun b : list byte * Z => (b.1, @None error)) <$> blocks /\
  length (raw_of pos blocks) = length blocks.
Proof.
  revert pos. induction blocks as [|[data align] blocks IH]; intros pos Ha Hp.
  - repeat split.
  - apply Forall_cons in Ha as [Ha Has]. cbn in Ha.
    destruct (IH (pos + Z.of_nat (length (frame pos data align))) Has ltac:(lia))
      as (E1 & E2 & E3).
    cbn [frames raw_of fmap list_fmap length]. rewrite E1, E2, E3.
    split; [|split; reflexivity].
    unfold raw_frames. cbn [fmap list_fmap concat]. f_equal.
    unfold frame, raw_frame. cbn [fst snd].
    rewrite length_replicate, Z2Nat.id; [reflexivity|].
    apply alignOffset_nonneg; [exact Ha|lia].
Qed.

Lemma raw_frames_app fs gs : raw_frames (fs ++ gs) = raw_frames fs ++ raw_frames gs.
Proof. unfold raw_frames. rewrite fmap_app, concat_app. reflexivity. Qed.

(** X9. The slicer needs no alignment to decode: the streams of two
    writers put one after the other (the second is aligned relative to its
    own start) are sliced into the payloads of the first followed by those of
    the second, and then the end of the stream is reported. *)
Theorem concatenated_streams (A B : list (list byte * Z)) :
  Forall (fun b => in_int64 b.2) A -> Forall (fun b => in_int64 b.2) B ->
  Z.of_nat (length (frames 0 A)) + Z.of_nat (length (frames 0 B)) <= max_int64 ->
  exists wa wb r,
    WriteAll A (ByteBlockWriter.NewByteBlockWriter ([] : Buffer)) =
      Returns (wa, replicate (length A) None) /\
    WriteAll B (ByteBlockWriter.NewByteBlockWriter ([] : Buffer)) =
      Returns (wb, replicate (length B) None) /\
    SliceN (length A + length B)
      (ByteBlockSlicer.NewByteBlockSlicer
         (ByteBlockWriter.writer wa ++ ByteBlockWriter.writer wb)) =
      Returns (r, (fun b => (b.1, None)) <$> (A ++ B)) /\
    ByteBlockSlicer.Slice r = Returns (r, ([], Some EOF)).
Proof.
  intros HA HB Hb.
  destruct (WriteAll_fresh A HA ltac:(lia)) as (wa & Ra & Sa).
  destruct (WriteAll_fresh B HB ltac:(lia)) as (wb & Rb & Sb).
  destruct (frames_raw_of 0 A HA ltac:(lia)) as (Ea & Pa & La).
  destruct (frames_raw_of 0 B HB ltac:(lia)) as (Eb & Pb & Lb).
  pose proof (SliceN_raw (raw_of 0 A ++ raw_of 0 B) [] []) as HS.
  rewrite raw_frames_app, <- Ea, <- Eb, app_nil_r in HS. cbn [app length] in HS.
  change (Z.of_nat 0) with 0 in HS.
  rewrite (length_app (raw_of 0 A)), La, Lb, fmap_app, Pa, Pb, Z.add_0_l in HS.
  specialize (HS ltac:(rewrite length_app; lia)).
  eexists wa, wb, _. split; [exact Ra|]. split; [exact Rb|].
  rewrite Sa, Sb, fmap_app. unfold ByteBlockSlicer.NewByteBlockSlicer.
  split; [exact HS|].
  unfold ByteBlockSlicer.Slice. cbn.
  rewrite len64_id by (rewrite length_app; lia). rewrite Z.leb_refl. reflexivity.
Qed.

Lemma concatenated_streams_witness :
  exists wa wb r,
    WriteAll test_blocks (ByteBlockWriter.NewByteBlockWriter ([] : Buffer)) =
      Returns (wa, replicate (length test_blocks) None) /\
    WriteAll [(world, 7)] (ByteBlockWriter.NewByteBlockWriter ([] : Buffer)) =
      Returns (wb, replicate (length [(world, 7)]) None) /\
    SliceN (length test_blocks + length [(world, 7)])
      (ByteBlockSlicer.NewByteBlockSlicer
         (ByteBlockWriter.writer wa ++ ByteBlockWriter.writer wb)) =
      Returns (r, (fun b => (b.1, None)) <$> (test_blocks ++ [(world, 7)])) /\
    ByteBlockSlicer.Slice r = Returns (r, ([], Some EOF)).
Proof.
  apply (concatenated_streams test_blocks [(world, 7)]).
  - unfold test_blocks.
    repeat constructor; unfold in_int64, min_int64, max_int64; simpl; lia.
  - repeat constructor; unfold in_int64, min_int64, max_int64; simpl; lia.
  - vm_compute. discriminate.
Defined.

(** ** The writer does not look at the sink *)

Section sink_image.
Context {S T : Type} `{!IoWriter S} `{!IoWriter T} (f : S -> T).
Hypothesis f_write : forall (s : S) (p : list byte),
  io_write (f s) p = (f (io_write s p).1, (io_write s p).2).
Implicit Types w : ByteBlockWriter.t S.

Lemma rawWrite_image w p :
  ByteBlockWriter.rawWrite p (map_writer f w) =
  (map_writer f (ByteBlockWriter.rawWrite p w).1, (ByteBlockWriter.rawWrite p w).2).
Proof.
  unfold ByteBlockWriter.rawWrite.
  cbn [map_writer ByteBlockWriter.writer]. rewrite f_write.
  destruct (io_write (ByteBlockWriter.writer w) p) as [s [n e]]. reflexivity.
Qed.

Lemma fillStub_image w n :
  ByteBlockWriter.fillStub n (map_writer f w) =
  map_writer f <$> ByteBlockWriter.fillStub n w.
Proof.
  unfold ByteBlockWriter.fillStub. cbn [map_writer ByteBlockWriter.stub].
  destruct (fillInt64 n (ByteBlockWriter.stub w)); reflexivity.
Qed.

Lemma NewBlock_image w align len :
  ByteBlockWriter.NewBlock align len (map_writer f w) =
  (fun x => (map_writer f x.1, x.2)) <$> ByteBlockWriter.NewBlock align len w.
Proof.
  unfold ByteBlockWriter.NewBlock.
  cbn [map_writer ByteBlockWriter.err ByteBlockWriter.numBytesLeft].
  destruct (ByteBlockWriter.err w) as [e0|]; [reflexivity|].
  destruct (0 <? ByteBlockWriter.numBytesLeft w); [reflexivity|].
  fold (map_writer f w). rewrite fillStub_image.
  destruct (ByteBlockWriter.fillStub len w) as [w1|]; cbn; [|reflexivity].
  rewrite rawWrite_image.
  destruct (ByteBlockWriter.rawWrite (ByteBlockWriter.stub w1) w1) as [w2 [e2|]]; cbn;
    [reflexivity|].
  change (ByteBlockWriter.set_err None (map_writer f w2))
    with (map_writer f (ByteBlockWriter.set_err None w2)).
  rewrite fillStub_image.
  destruct (ByteBlockWriter.fillStub _ (ByteBlockWriter.set_err None w2)) as [w3|];
    cbn; [|reflexivity].
  rewrite rawWrite_image.
  destruct (ByteBlockWriter.rawWrite (ByteBlockWriter.stub w3) w3) as [w4 [e4|]]; cbn;
    [reflexivity|].
  destruct (make_bytes _) as [pad|]; cbn; [|reflexivity].
  change (ByteBlockWriter.set_err None (map_writer f w4))
    with (map_writer f (ByteBlockWriter.set_err None w4)).
  rewrite rawWrite_image.
  destruct (ByteBlockWriter.rawWrite pad (ByteBlockWriter.set_err None w4))
    as [w5 [e5|]]; reflexivity.
Qed.

Lemma Append_image w data :
  ByteBlockWriter.Append data (map_writer f w) =
  (map_writer f (ByteBlockWriter.Append data w).1, (ByteBlockWriter.Append data w).2).
Proof.
  unfold ByteBlockWriter.Append.
  cbn [map_writer ByteBlockWriter.err ByteBlockWriter.numBytesLeft].
  destruct (ByteBlockWriter.err w) as [e0|]; [reflexivity|].
  destruct (ByteBlockWriter.numBytesLeft w <? len64 data); [reflexivity|].
  fold (map_writer f w). rewrite rawWrite_image.
  destruct (ByteBlockWriter.rawWrite data w) as [w1 [e1|]]; reflexivity.
Qed.

Lemma Write_image w data align :
  ByteBlockWriter.Write data align (map_writer f w) =
  (fun x => (map_writer f x.1, x.2)) <$> ByteBlockWriter.Write data align w.
Proof.
  rewrite !Write_unfold, NewBlock_image.
  destruct (ByteBlockWriter.NewBlock align (len64 data) w) as [[w1 e1]|]; cbn;
    [|reflexivity].
  rewrite Append_image. destruct (ByteBlockWriter.Append data w1). reflexivity.
Qed.

Lemma do_call_image c w :
  do_call c (map_writer f w) = (fun x => (map_writer f x.1, x.2)) <$> do_call c w.
Proof.
  destruct c; cbn [do_call].
  - apply NewBlock_image.
  - rewrite Append_image. destruct (ByteBlockWriter.Append data w). reflexivity.
  - unfold ByteBlockWriter.AppendString. rewrite Append_image.
    destruct (ByteBlockWriter.Append data w). reflexivity.
  - apply Write_image.
  - apply (Write_image w data align).
Qed.

Lemma do_calls_image cs w :
  do_calls cs (map_writer f w) = map_writer f <$> do_calls cs w.
Proof.
  revert w. induction cs as [|c cs IH]; intros w; [reflexivity|].
  cbn [do_calls]. rewrite do_call_image.
  destruct (do_call c w) as [[w1 e1]|]; cbn; [apply IH|reflexivity].
Qed.

End sink_image.

(** X10. The writer counts from its own construction and never looks at
    what the sink holds: over a bytes.Buffer that already holds [seed], any
    sequence of calls returns the errors and leaves the counters it would
    over an empty buffer, and the buffer is [seed] followed by the bytes
    written there.  Alignment is thus relative to the writer's start. *)
Theorem writer_ignores_seed (seed : Buffer) (cs : list call) :
  do_calls cs (ByteBlockWriter.NewByteBlockWriter seed) =
  map_writer (app seed) <$>
    do_calls cs (ByteBlockWriter.NewByteBlockWriter ([] : Buffer)) /\
  forall c (w : ByteBlockWriter.t Buffer),
    do_call c (map_writer (app seed) w) =
    (fun x => (map_writer (app seed) x.1, x.2)) <$> do_call c w.
Proof.
  assert (H : forall (s : Buffer) p,
            io_write (seed ++ s) p =
            (seed ++ (io_write s p).1, (io_write s p).2)).
  { intros s p. unfold io_write, Buffer_write. cbn. rewrite app_assoc. reflexivity. }
  split.
  - rewrite <- (do_calls_image (app seed) H).
    unfold map_writer, ByteBlockWriter.NewByteBlockWriter. cbn.
    rewrite app_nil_r. reflexivity.
  - intros c w. apply (do_call_image (app seed) H).
Qed.

(** ** Failures of the sink *)

Section sink_failures.
Context {S : Type} `{!IoWriter S}.
Import ByteBlockWriter.
Implicit Types w : ByteBlockWriter.t S.

Lemma Append_fails w e data s1 n1 :
  err w = None -> len64 data <= numBytesLeft w ->
  io_write (writer w) data = (s1, (n1, Some e)) ->
  Append data w =
  (mk s1 (add64 (numBytesWritten w) n1) (sub64 (numBytesLeft w) n1) (Some e) (stub w),
   Some e).
Proof.
  intros He Hl W. unfold Append. rewrite He.
  destruct (Z.ltb_spec (numBytesLeft w) (len64 data)); [lia|].
  unfold rawWrite. rewrite W. reflexivity.
Qed.

Lemma NewBlock_fails_length w e align len s1 n1 :
  err w = None -> numBytesLeft w <= 0 -> length (stub w) = 8%nat ->
  io_write (writer w) (le_bytes len) = (s1, (n1, Some e)) ->
  NewBlock align len w =
  Returns (mk s1 (add64 (numBytesWritten w) n1) (sub64 (numBytesLeft w) n1) (Some e)
             (le_bytes len), Some e).
Proof.
  intros He Hl Hs W1. unfold NewBlock. rewrite He.
  destruct (Z.ltb_spec 0 (numBytesLeft w)); [lia|].
  rewrite fillStub_spec by exact Hs. cbn.
  unfold rawWrite at 1. cbn. rewrite W1. reflexivity.
Qed.

Lemma NewBlock_fails_offset w e align len offset s1 n1 s2 n2 :
  err w = None -> numBytesLeft w <= 0 -> length (stub w) = 8%nat ->
  io_write (writer w) (le_bytes len) = (s1, (n1, None)) ->
  offset = alignOffset align (add64 (add64 (numBytesWritten w) n1) 8) ->
  io_write s1 (le_bytes offset) = (s2, (n2, Some e)) ->
  NewBlock align len w =
  Returns (mk s2 (add64 (add64 (numBytesWritten w) n1) n2)
             (sub64 (sub64 (numBytesLeft w) n1) n2) (Some e) (le_bytes offset),
           Some e).
Proof.
  intros He Hl Hs W1 -> W2. unfold NewBlock. rewrite He.
  destruct (Z.ltb_spec 0 (numBytesLeft w)); [lia|].
  rewrite fillStub_spec by exact Hs. cbn.
  unfold rawWrite at 1. cbn. rewrite W1. cbn.
  rewrite fillStub_spec by reflexivity. cbn.
  unfold rawWrite at 1. cbn. rewrite W2. reflexivity.
Qed.

Lemma NewBlock_fails_padding w e align len offset s1 n1 s2 n2 s3 n3 :
  err w = None -> numBytesLeft w <= 0 -> length (stub w) = 8%nat ->
  io_write (writer w) (le_bytes len) = (s1, (n1, None)) ->
  offset = alignOffset align (add64 (add64 (numBytesWritten w) n1) 8) ->
  io_write s1 (le_bytes offset) = (s2, (n2, None)) ->
  0 <= offset ->
  io_write s2 (replicate (Z.to_nat offset) x00) = (s3, (n3, Some e)) ->
  NewBlock align len w =
  Returns (mk s3 (add64 (add64 (add64 (numBytesWritten w) n1) n2) n3)
             (sub64 (sub64 (sub64 (numBytesLeft w) n1) n2) n3) (Some e)
             (le_bytes offset), Some e).
Proof.
  intros He Hl Hs W1 -> W2 Ho W3. unfold NewBlock. rewrite He.
  destruct (Z.ltb_spec 0 (numBytesLeft w)); [lia|].
  rewrite fillStub_spec by exact Hs. cbn.
  unfold rawWrite at 1. cbn. rewrite W1. cbn.
  rewrite fillStub_spec by reflexivity. cbn.
  unfold rawWrite at 1. cbn. rewrite W2. cbn.
  unfold make_bytes.
  destruct (Z.ltb_spec (alignOffset align (add64 (add64 (numBytesWritten w) n1) 8)) 0);
    [lia|]. cbn.
  unfold rawWrite. cbn. rewrite W3. reflexivity.
Qed.

End sink_failures.

(** X11. Over any sink, the first write the sink fails stops the operation:
    [NewBlock] and [Append] make no further write, return the sink's error as
    it is and latch it, and the byte counter has advanced by what the sink
    reported for the writes made, the failed one included. *)
Theorem sink_error_stops_the_operation {S : Type} `{!IoWriter S}
    (w : ByteBlockWriter.t S) (e : error) :
  ByteBlockWriter.err w = None ->
  (forall data s1 n1,
     len64 data <= ByteBlockWriter.numBytesLeft w ->
     io_write (ByteBlockWriter.writer w) data = (s1, (n1, Some e)) ->
     ByteBlockWriter.Append data w =
     (ByteBlockWriter.mk s1 (add64 (ByteBlockWriter.numBytesWritten w) n1)
        (sub64 (ByteBlockWriter.numBytesLeft w) n1) (Some e)
        (ByteBlockWriter.stub w), Some e)) /\
  (ByteBlockWriter.numBytesLeft w <= 0 ->
   length (ByteBlockWriter.stub w) = 8%nat ->
   forall align len s1 n1,
     io_write (ByteBlockWriter.writer w) (le_bytes len) = (s1, (n1, Some e)) ->
     ByteBlockWriter.NewBlock align len w =
     Returns (ByteBlockWriter.mk s1 (add64 (ByteBlockWriter.numBytesWritten w) n1)
                (sub64 (ByteBlockWriter.numBytesLeft w) n1) (Some e)
                (le_bytes len), Some e)) /\
  (ByteBlockWriter.numBytesLeft w <= 0 ->
   length (ByteBlockWriter.stub w) = 8%nat ->
   forall align len s1 n1 s2 n2,
     io_write (ByteBlockWriter.writer w) (le_bytes len) = (s1, (n1, None)) ->
     let offset := alignOffset align (add64 (add64 (ByteBlockWriter.numBytesWritten w) n1) 8) in
     io_write s1 (le_bytes offset) = (s2, (n2, Some e)) ->
     ByteBlockWriter.NewBlock align len w =
     Returns (ByteBlockWriter.mk s2
                (add64 (add64 (ByteBlockWriter.numBytesWritten w) n1) n2)
                (sub64 (sub64 (ByteBlockWriter.numBytesLeft w) n1) n2) (Some e)
                (le_bytes offset), Some e)) /\
  (ByteBlockWriter.numBytesLeft w <= 0 ->
   length (ByteBlockWriter.stub w) = 8%nat ->
   forall align len s1 n1 s2 n2 s3 n3,
     io_write (ByteBlockWriter.writer w) (le_bytes len) = (s1, (n1, None)) ->
     let offset := alignOffset align (add64 (add64 (ByteBlockWriter.numBytesWritten w) n1) 8) in
     io_write s1 (le_bytes offset) = (s2, (n2, None)) ->
     0 <= offset ->
     io_write s2 (replicate (Z.to_nat offset) x00) = (s3, (n3, Some e)) ->
     ByteBlockWriter.NewBlock align len w =
     Returns (ByteBlockWriter.mk s3
                (add64 (add64 (add64 (ByteBlockWriter.numBytesWritten w) n1) n2) n3)
                (sub64 (sub64 (sub64 (ByteBlockWriter.numBytesLeft w) n1) n2) n3)
                (Some e) (le_bytes offset), Some e)).
Proof.
  intros He. split; [|split; [|split]].
  - intros data s1 n1 Hl W. apply (Append_fails w e data s1 n1 He Hl W).
  - intros Hl Hs align len s1 n1 W1.
    apply (NewBlock_fails_length w e align len s1 n1 He Hl Hs W1).
  - intros Hl Hs align len s1 n1 s2 n2 W1 offset W2.
    apply (NewBlock_fails_offset w e align len offset s1 n1 s2 n2 He Hl Hs W1 eq_refl W2).
  - intros Hl Hs align len s1 n1 s2 n2 s3 n3 W1 offset W2 Ho W3.
    apply (NewBlock_fails_padding w e align len offset s1 n1 s2 n2 s3 n3
             He Hl Hs W1 eq_refl W2 Ho W3).
Qed.

Lemma sink_error_stops_the_operation_witness :
  ByteBlockWriter.NewBlock 4 5 (ByteBlockWriter.NewByteBlockWriter (mkLimited [] 3)) =
  Returns (ByteBlockWriter.mk (mkLimited [x05; x00; x00] 0) (add64 0 3) (sub64 0 3)
             (Some (ErrSink 0)) (le_bytes 5), Some (ErrSink 0)).
Proof.
  refine (proj1 (proj2 (sink_error_stops_the_operation
            (ByteBlockWriter.NewByteBlockWriter (mkLimited [] 3)) (ErrSink 0) eq_refl))
            _ eq_refl 4 5 (mkLimited [x05; x00; x00] 0) 3 _).
  - simpl. lia.
  - vm_compute. reflexivity.
Defined.

(** ** Every error-free use of the writer gives a stream the slicer reads *)

Section api_use.
Import ByteBlockWriter.
Implicit Types w : ByteBlockWriter.t Buffer.

Lemma NewBlock_Buffer_negative_offset w align len :
  length (stub w) = 8%nat -> err w = None -> numBytesLeft w <= 0 ->
  alignOffset align (add64 (add64 (numBytesWritten w) 8) 8) < 0 ->
  NewBlock align len w = Panics MakeSliceLenOutOfRange.
Proof.
  intros Hs He Hl Ho. unfold NewBlock. rewrite He.
  destruct (Z.ltb_spec 0 (numBytesLeft w)); [lia|].
  rewrite fillStub_spec by exact Hs. cbn.
  rewrite rawWrite_Buffer. cbn.
  rewrite fillStub_spec by reflexivity. cbn.
  rewrite rawWrite_Buffer. cbn.
  rewrite !length_le_bytes. change (Z.of_nat 8) with 8.
  unfold make_bytes.
  destruct (Z.ltb_spec (alignOffset align (add64 (add64 (numBytesWritten w) 8) 8)) 0);
    [reflexivity|lia].
Qed.

(** From a successful [NewBlock] whose buffer fits, back to its effect. *)
Lemma NewBlock_Buffer_back w w' align len :
  tracks w -> err w = None -> in_int64 align ->
  NewBlock align len w = Returns (w', None) ->
  Z.of_nat (length (writer w')) <= max_int64 ->
  let offset := alignOffset align (Z.of_nat (length (writer w)) + 16) in
  numBytesLeft w <= 0 /\ 0 <= offset /\
  w' = mk (writer w ++ le_bytes len ++ le_bytes offset ++
           replicate (Z.to_nat offset) x00)
          (Z.of_nat (length (writer w)) + 16 + offset) len None (le_bytes offset).
Proof.
  intros T He Ha HN Hb offset.
  assert (Hl : numBytesLeft w <= 0).
  { destruct (Z.le_gt_cases (numBytesLeft w) 0) as [|Hgt]; [assumption|].
    exfalso. revert HN. unfold NewBlock. rewrite He.
    destruct (Z.ltb_spec 0 (numBytesLeft w)); [discriminate|lia]. }
  destruct T as [Hs Hn].
  set (off' := alignOffset align (add64 (add64 (numBytesWritten w) 8) 8)).
  destruct (Z.lt_ge_cases off' 0) as [Hneg|Hpos].
  { rewrite (NewBlock_Buffer_negative_offset w align len Hs He Hl Hneg) in HN.
    discriminate. }
  rewrite (NewBlock_accepted w align len off'
             (writer w ++ le_bytes len)
             ((writer w ++ le_bytes len) ++ le_bytes off')
             (((writer w ++ le_bytes len) ++ le_bytes off') ++
                replicate (Z.to_nat off') x00)
             8 8 (Z.of_nat (length (replicate (Z.to_nat off') x00)))
             He Hl Hs eq_refl eq_refl eq_refl Hpos eq_refl) in HN.
  injection HN as <-. cbn [writer] in Hb.
  rewrite !length_app, !length_le_bytes, length_replicate in Hb.
  assert (Hnb : numBytesWritten w = Z.of_nat (length (writer w))).
  { rewrite Hn. apply wrap64_id. unfold in_int64, min_int64, max_int64 in *. lia. }
  assert (E1 : add64 (add64 (numBytesWritten w) 8) 8 =
               Z.of_nat (length (writer w)) + 16).
  { rewrite Hnb.
    rewrite (add64_id (Z.of_nat _) 8)
      by (unfold in_int64, min_int64, max_int64 in *; lia).
    rewrite add64_id by (unfold in_int64, min_int64, max_int64 in *; lia). lia. }
  assert (Eo : off' = offset) by (unfold off', offset; rewrite E1; reflexivity).
  rewrite Eo in *. split; [exact Hl|]. split; [exact Hpos|].
  rewrite E1, length_replicate, Z2Nat.id by lia.
  rewrite add64_id by (unfold in_int64, min_int64, max_int64 in *; lia).
  rewrite <- !app_assoc. reflexivity.
Qed.

Lemma Append_Buffer_back w w' data :
  err w = None -> in_int64 (numBytesLeft w) ->
  Append data w = (w', None) ->
  Z.of_nat (length (writer w')) <= max_int64 ->
  Z.of_nat (length data) <= numBytesLeft w /\
  writer w' = writer w ++ data /\
  numBytesLeft w' = numBytesLeft w - Z.of_nat (length data) /\
  err w' = None.
Proof.
  intros He Hr. unfold Append. rewrite He.
  destruct (Z.ltb_spec (numBytesLeft w) (len64 data)) as [|Hge]; [discriminate|].
  rewrite rawWrite_Buffer. cbn. intros [= <-]. cbn. rewrite length_app. intros Hb.
  rewrite len64_id in Hge by lia.
  split; [exact Hge|]. split; [reflexivity|]. split; [|reflexivity].
  apply wrap64_id. unfold in_int64, min_int64, max_int64 in *. lia.
Qed.

Lemma do_call_returns_err c w w' e :
  do_call c w = Returns (w', e) -> err w' = e.
Proof.
  destruct c; cbn [do_call].
  - apply NewBlock_returns_err.
  - intros [= A]. exact (Append_returns_err _ _ _ _ A).
  - intros [= A]. exact (Append_returns_err _ _ _ _ A).
  - apply Write_returns_err.
  - apply (Write_returns_err w w' e data align).
Qed.

Lemma raw_frames_option (cur : option (list byte * list byte)) :
  raw_frames (option_list cur) = from_option (open_frame 0) [] cur.
Proof.
  destruct cur as [f|]; [|reflexivity].
  unfold raw_frames, raw_frame, open_frame. cbn.
  rewrite Z.add_0_r, app_nil_r. reflexivity.
Qed.

Lemma building_NewBlock w w' align len done cur :
  tracks w -> err w = None -> building w done cur ->
  in_int64 align -> 0 <= len <= max_int64 ->
  NewBlock align len w = Returns (w', None) ->
  Z.of_nat (length (writer w')) <= max_int64 ->
  exists done' cur',
    building w' done' cur' /\ payload_bytes done' cur' = payload_bytes done cur.
Proof.
  intros T He (Hw & Hl & Hc) Ha Hlen HN Hb.
  destruct (NewBlock_Buffer_back w w' align len T He Ha HN Hb) as (Hl0 & Ho & ->).
  set (offset := alignOffset align (Z.of_nat (length (writer w)) + 16)) in *.
  assert (H0 : numBytesLeft w = 0) by lia.
  exists (done ++ option_list cur),
         (Some (replicate (Z.to_nat offset) x00, [])).
  split.
  - split; [|split; [cbn; lia|discriminate]].
    cbn [writer numBytesLeft from_option].
    rewrite Hw, H0, raw_frames_app, raw_frames_option, <- !app_assoc.
    do 2 f_equal.
    unfold open_frame. cbn [fst snd length].
    rewrite length_replicate, Z2Nat.id, Z.add_0_l, app_nil_r by lia.
    reflexivity.
  - unfold payload_bytes. cbn [from_option]. rewrite app_nil_r, fmap_app, concat_app.
    f_equal. destruct cur as [f|]; cbn; rewrite ?app_nil_r; reflexivity.
Qed.

Lemma building_Append w w' data done cur :
  err w = None -> building w done cur ->
  Append data w = (w', None) ->
  Z.of_nat (length (writer w')) <= max_int64 ->
  exists done' cur',
    building w' done' cur' /\
    payload_bytes done' cur' = payload_bytes done cur ++ data.
Proof.
  intros He (Hw & Hl & Hc) HA Hb.
  destruct (Append_Buffer_back w w' data He) as (Hd & Hw' & Hl' & He');
    [unfold in_int64, min_int64, max_int64 in *; lia|exact HA|exact Hb|].
  destruct cur as [[pad sofar]|].
  - exists done, (Some (pad, sofar ++ data)). split.
    + split; [|split; [lia|discriminate]].
      rewrite Hw', Hw, Hl'. cbn [from_option]. unfold open_frame. cbn [fst snd].
      rewrite <- !app_assoc, length_app. do 2 f_equal. f_equal. lia.
    + unfold payload_bytes. cbn. rewrite app_assoc. reflexivity.
  - specialize (Hc eq_refl). assert (data = []) as ->.
    { destruct data; [reflexivity|]. cbn in Hd. lia. }
    exists done, None. split.
    + split; [|split; [cbn in Hl'; lia|intros _; cbn in Hl'; lia]].
      rewrite Hw', Hw, app_nil_r. reflexivity.
    + unfold payload_bytes. cbn. rewrite !app_nil_r. reflexivity.
Qed.

Lemma building_Write w w' data align done cur :
  tracks w -> err w = None -> building w done cur -> in_int64 align ->
  Write data align w = Returns (w', None) ->
  Z.of_nat (length (writer w')) <= max_int64 ->
  exists done' cur',
    building w' done' cur' /\
    payload_bytes done' cur' = payload_bytes done cur ++ data.
Proof.
  intros T He B Ha HW Hb. rewrite Write_unfold in HW.
  destruct (NewBlock align (len64 data) w) as [[w1 e1]|] eqn:N; [|discriminate].
  cbn in HW. injection HW as A.
  pose proof (NewBlock_returns_err _ _ _ _ _ N) as E1.
  destruct e1 as [e1|].
  { rewrite (Append_latched _ _ _ E1) in A. discriminate. }
  destruct (NewBlock_tracks _ _ _ _ _ T N) as (T1 & a1 & S1).
  destruct (Append_tracks _ _ _ _ T1 A) as (_ & a2 & S2).
  pose proof (NewBlock_left _ _ _ _ N) as L1.
  destruct (Append_Buffer_back w1 w' data E1) as (Hd & Hw' & _ & _);
    [rewrite L1; apply wrap64_range|exact A|exact Hb|].
  assert (Hb1 : Z.of_nat (length (writer w1)) <= max_int64)
    by (rewrite Hw', length_app in Hb; lia).
  assert (Hdl : len64 data = Z.of_nat (length data)).
  { apply len64_id. rewrite Hw', length_app in Hb. lia. }
  rewrite Hdl in N.
  destruct (building_NewBlock w w1 align (Z.of_nat (length data)) done cur T He B Ha)
    as (d1 & c1 & B1 & P1);
    [rewrite Hw', length_app in Hb; lia|exact N|exact Hb1|].
  destruct (building_Append w1 w' data d1 c1 E1 B1 A Hb) as (d2 & c2 & B2 & P2).
  exists d2, c2. split; [exact B2|]. rewrite P2, P1. reflexivity.
Qed.

Lemma building_do_call c w w' done cur :
  tracks w -> err w = None -> building w done cur -> call_ok c ->
  do_call c w = Returns (w', None) ->
  Z.of_nat (length (writer w')) <= max_int64 ->
  exists done' cur',
    building w' done' cur' /\
    payload_bytes done' cur' = payload_bytes done cur ++ data_of_call c.
Proof.
  intros T He B Hok HC Hb. destruct c; cbn [do_call data_of_call call_ok] in *.
  - destruct Hok as [Ha Hl].
    destruct (building_NewBlock w w' align length done cur T He B Ha Hl HC Hb)
      as (d & c & B' & P).
    exists d, c. split; [exact B'|]. rewrite P, app_nil_r. reflexivity.
  - injection HC as A. exact (building_Append w w' data done cur He B A Hb).
  - injection HC as A. exact (building_Append w w' data done cur He B A Hb).
  - exact (building_Write w w' data align done cur T He B Hok HC Hb).
  - exact (building_Write w w' data align done cur T He B Hok HC Hb).
Qed.

Lemma building_do_calls cs w w' done cur :
  tracks w -> err w = None -> building w done cur -> Forall call_ok cs ->
  do_calls cs w = Returns w' -> err w' = None ->
  Z.of_nat (length (writer w')) <= max_int64 ->
  exists done' cur',
    building w' done' cur' /\
    payload_bytes done' cur' = payload_bytes done cur ++ appended cs.
Proof.
  revert w done cur. induction cs as [|c cs IH]; intros w done cur T He B Hok R He' Hb.
  - injection R as <-. exists done, cur. split; [exact B|].
    unfold appended. cbn. rewrite app_nil_r. reflexivity.
  - apply Forall_cons in Hok as [Hc Hcs]. cbn [do_calls] in R.
    destruct (do_call c w) as [[w1 e1]|] eqn:C; [|discriminate]. cbn in R.
    pose proof (do_call_returns_err _ _ _ _ C) as E1.
    destruct e1 as [e1|].
    { rewrite (do_calls_latched w1 e1 cs E1) in R. injection R as <-. congruence. }
    destruct (do_call_tracks _ _ _ _ T C) as (T1 & _).
    destruct (do_calls_tracks _ _ _ T1 R) as (_ & a & Sa).
    assert (Hb1 : Z.of_nat (length (writer w1)) <= max_int64)
      by (rewrite Sa, length_app in Hb; lia).
    destruct (building_do_call c w w1 done cur T He B Hc C Hb1) as (d1 & c1 & B1 & P1).
    destruct (IH w1 d1 c1 T1 E1 B1 Hcs R He' Hb) as (d2 & c2 & B2 & P2).
    exists d2, c2. split; [exact B2|]. rewrite P2, P1. unfold appended. cbn.
    rewrite app_assoc. reflexivity.
Qed.

End api_use.

(** X12. Whatever way the methods of the writer are combined ([NewBlock],
    [Append], [AppendString], [Write], [WriteString], with int64 alignments
    and declared lengths that are not negative): if, over an empty
    bytes.Buffer, the calls leave no error latched and no block open, then
    the buffer is a stream the slicer reads to its end without error, and
    the payloads it returns, put together, are the bytes the calls appended,
    in their order. *)
Theorem error_free_use_is_decodable (cs : list call) (w : ByteBlockWriter.t Buffer) :
  Forall call_ok cs ->
  do_calls cs (ByteBlockWriter.NewByteBlockWriter ([] : Buffer)) = Returns w ->
  ByteBlockWriter.err w = None ->
  ByteBlockWriter.numBytesLeft w = 0 ->
  Z.of_nat (length (ByteBlockWriter.writer w)) <= max_int64 ->
  exists payloads r,
    SliceN (length payloads)
      (ByteBlockSlicer.NewByteBlockSlicer (ByteBlockWriter.writer w)) =
      Returns (r, (fun p => (p, None)) <$> payloads) /\
    ByteBlockSlicer.Slice r = Returns (r, ([], Some EOF)) /\
    concat payloads = appended cs.
Proof.
  intros Hok R He Hl Hb.
  destruct (building_do_calls cs (ByteBlockWriter.NewByteBlockWriter ([] : Buffer))
              w [] None) as (done & cur & (Hw & _ & _) & P); try assumption.
  - apply NewByteBlockWriter_tracks. reflexivity.
  - reflexivity.
  - split; [reflexivity|]. split; [|reflexivity]. cbn. unfold max_int64. lia.
  - rewrite Hl, <- raw_frames_option, <- raw_frames_app in Hw.
    set (fs := done ++ option_list cur) in *.
    pose proof (SliceN_raw fs [] []) as HS. cbn [app length] in HS.
    rewrite app_nil_r, <- Hw in HS. change (Z.of_nat 0) with 0 in HS.
    rewrite Z.add_0_l in HS. specialize (HS Hb).
    exists (snd <$> fs). eexists. rewrite length_fmap, <- list_fmap_compose.
    split; [exact HS|]. split.
    + unfold ByteBlockSlicer.Slice. cbn. rewrite len64_id by exact Hb.
      rewrite Z.leb_refl. reflexivity.
    + unfold payload_bytes in P. cbn in P. rewrite <- P. unfold fs.
      rewrite fmap_app, concat_app. f_equal.
      destruct cur as [f|]; cbn; rewrite ?app_nil_r; reflexivity.
Qed.

Lemma error_free_use_is_decodable_witness :
  exists (w : ByteBlockWriter.t Buffer) payloads r,
    do_calls [CallNewBlock 4 5; CallAppend [x68; x65]; CallAppendString [x6c; x6c; x6f];
              CallWrite world 8; CallNewBlock 0 0]
      (ByteBlockWriter.NewByteBlockWriter ([] : Buffer)) = Returns w /\
    SliceN (length payloads)
      (ByteBlockSlicer.NewByteBlockSlicer (ByteBlockWriter.writer w)) =
      Returns (r, (fun p => (p, @None error)) <$> payloads) /\
    ByteBlockSlicer.Slice r = Returns (r, ([], Some EOF)) /\
    concat payloads = hello ++ world.
Proof.
  pose (cs := [CallNewBlock 4 5; CallAppend [x68; x65]; CallAppendString [x6c; x6c; x6f];
               CallWrite world 8; CallNewBlock 0 0]).
  pose (w0 := ByteBlockWriter.NewByteBlockWriter ([] : Buffer)).
  pose (w := match do_calls cs w0 with Returns w => w | Panics _ => w0 end).
  assert (R : do_calls cs w0 = Returns w) by (vm_compute; reflexivity).
  destruct (error_free_use_is_decodable cs w) as (payloads & r & H1 & H2 & H3).
  - unfold cs. repeat constructor; unfold in_int64, min_int64, max_int64; lia.
  - exact R.
  - vm_compute. reflexivity.
  - vm_compute. reflexivity.
  - vm_compute. discriminate.
  - exists w, payloads, r. split; [exact R|]. split; [exact H1|].
    split; [exact H2|]. rewrite H3. vm_compute. reflexivity.
Defined.

(** ** When a block is finished *)

(** X13. Over a bytes.Buffer, after [NewBlock] with a declared length and
    chunks appended that together do not exceed it, the writer has written
    header, padding and exactly the chunks; the next [NewBlock] is refused
    with [ErrNewBlockBeforeFinish] as long as the chunks fall short of the
    declared length, and the block is finished (counter 0) once they reach
    it. *)
Theorem block_finished_when_full (w : ByteBlockWriter.t Buffer) align len chunks :
  tracks w -> ByteBlockWriter.err w = None ->
  ByteBlockWriter.numBytesLeft w <= 0 -> in_int64 align ->
  Z.of_nat (length (concat chunks)) <= len ->
  let pos := Z.of_nat (length (ByteBlockWriter.writer w)) + 16 in
  let offset := alignOffset align pos in
  pos + offset + len <= max_int64 ->
  exists w',
    do_calls (CallNewBlock align len :: (CallAppend <$> chunks)) w = Returns w' /\
    ByteBlockWriter.writer w' =
      ByteBlockWriter.writer w ++ le_bytes len ++ le_bytes offset ++
      replicate (Z.to_nat offset) x00 ++ concat chunks /\
    ByteBlockWriter.err w' = None /\
    ByteBlockWriter.numBytesLeft w' = len - Z.of_nat (length (concat chunks)) /\
    (Z.of_nat (length (concat chunks)) < len ->
       forall align' len',
         ByteBlockWriter.NewBlock align' len' w' =
         Returns (ByteBlockWriter.set_err (Some ErrNewBlockBeforeFinish) w',
                  Some ErrNewBlockBeforeFinish)).
Proof.
  intros T He Hl Ha Hc pos offset Hb.
  assert (Ho : 0 <= offset) by (apply alignOffset_nonneg; [exact Ha|unfold pos; lia]).
  cbn [do_calls do_call].
  rewrite (NewBlock_Buffer w align len T He Hl Ha) by (fold pos; fold offset; lia).
  cbn. fold pos. fold offset.
  rewrite do_calls_appends; cbn;
    rewrite ?length_app, ?length_le_bytes, ?length_replicate;
    try reflexivity;
    try (unfold in_int64, min_int64, max_int64, pos in *; lia).
  eexists. split; [reflexivity|]. cbn.
  split; [rewrite <- !app_assoc; reflexivity|]. split; [reflexivity|].
  split; [reflexivity|].
  intros Hlt align' len'. unfold ByteBlockWriter.NewBlock. cbn.
  destruct (Z.ltb_spec 0 (len - Z.of_nat (length (concat chunks)))); [reflexivity|lia].
Qed.

Lemma block_finished_when_full_witness :
  exists w',
    do_calls (CallNewBlock 4 5 :: (CallAppend <$> [[x68; x65]; [x6c]]))
      (ByteBlockWriter.NewByteBlockWriter ([] : Buffer)) = Returns w' /\
    ByteBlockWriter.numBytesLeft w' = 5 - Z.of_nat (length (concat [[x68; x65]; [x6c]])) /\
    ByteBlockWriter.NewBlock 0 0 w' =
      Returns (ByteBlockWriter.set_err (Some ErrNewBlockBeforeFinish) w',
               Some ErrNewBlockBeforeFinish).
Proof.
  destruct (block_finished_when_full
              (ByteBlockWriter.NewByteBlockWriter ([] : Buffer)) 4 5 [[x68; x65]; [x6c]])
    as (w' & H1 & _ & _ & H4 & H5).
  - split; vm_compute; reflexivity.
  - reflexivity.
  - vm_compute. discriminate.
  - unfold in_int64, min_int64, max_int64. lia.
  - vm_compute. discriminate.
  - vm_compute. discriminate.
  - exists w'. split; [exact H1|]. split; [exact H4|]. apply H5.
    vm_compute. reflexivity.
Defined.

(** ** When the slicer cannot panic *)

(** X14. On any buffer, if the header at the cursor decodes to an offset and
    a length that are not negative and the end of the frame they describe
    fits an int64, [Slice] returns: the payload when the buffer holds the
    whole frame, [ErrNotEnoughBytes] otherwise.  The panic of the slicer
    needs a negative or an overflowing header field. *)
Theorem Slice_total_on_sound_header pre bl bo len off rest :
  length bl = 8%nat -> length bo = 8%nat ->
  readInt64 bl = Returns len -> readInt64 bo = Returns off ->
  0 <= off -> 0 <= len ->
  Z.of_nat (length pre) + 16 + off + len <= max_int64 ->
  Z.of_nat (length (pre ++ bl ++ bo ++ rest)) <= max_int64 ->
  exists r' d e,
    ByteBlockSlicer.Slice
      (ByteBlockSlicer.mk (pre ++ bl ++ bo ++ rest) (Z.of_nat (length pre)) None) =
      Returns (r', (d, e)) /\
    (off + len <= Z.of_nat (length rest) ->
       e = None /\ d = take (Z.to_nat len) (drop (Z.to_nat off) rest) /\
       ByteBlockSlicer.numBytesSliced r' = Z.of_nat (length pre) + 16 + off + len) /\
    (Z.of_nat (length rest) < off + len -> e = Some ErrNotEnoughBytes /\ d = []).
Proof.
  intros Hbl Hbo Hrl Hro Ho Hl Hf Hb.
  set (dat := pre ++ bl ++ bo ++ rest) in *.
  assert (Hlen : Z.of_nat (length dat) = Z.of_nat (length pre) + 16 + Z.of_nat (length rest)).
  { unfold dat. rewrite !length_app, Hbl, Hbo. lia. }
  rewrite (Slice_fields dat pre bl bo len off rest eq_refl Hbl Hbo Hrl Hro Hb).
  destruct (Z.le_gt_cases off (Z.of_nat (length rest))) as [Hin|Hout].
  - (* the padding is there *)
    assert (Hd : dat = (pre ++ bl ++ bo) ++ take (Z.to_nat off) rest ++
                   drop (Z.to_nat off) rest).
    { unfold dat. rewrite take_drop, <- !app_assoc. reflexivity. }
    rewrite (rawSlice_app dat _ None _ (take (Z.to_nat off) rest) _ off Hd);
      [| rewrite !length_app, Hbl, Hbo; lia
       | rewrite length_take; lia | exact Hb].
    unfold ByteBlockSlicer.set_err. cbn.
    destruct (Z.le_gt_cases (off + len) (Z.of_nat (length rest))) as [Hall|Hcut].
    + assert (Hd2 : dat = ((pre ++ bl ++ bo) ++ take (Z.to_nat off) rest) ++
                      take (Z.to_nat len) (drop (Z.to_nat off) rest) ++
                      drop (Z.to_nat len) (drop (Z.to_nat off) rest)).
      { rewrite take_drop, <- (app_assoc (pre ++ bl ++ bo)). exact Hd. }
      rewrite (rawSlice_app dat _ None _ (take (Z.to_nat len) (drop (Z.to_nat off) rest))
                 _ len Hd2);
        [| rewrite !length_app, Hbl, Hbo, length_take; lia
         | rewrite length_take, length_drop; lia | exact Hb].
      do 3 eexists. split; [reflexivity|]. cbn. split; [|lia].
      intros _. repeat split. lia.
    + rewrite rawSlice_short by lia.
      do 3 eexists. split; [reflexivity|]. split; [lia|]. intros _. split; reflexivity.
  - rewrite rawSlice_short by lia. cbn.
    do 3 eexists. split; [reflexivity|]. split; [lia|]. intros _. split; reflexivity.
Qed.

Lemma Slice_total_on_sound_header_witness :
  exists r' d e,
    ByteBlockSlicer.Slice
      (ByteBlockSlicer.mk ([x2a] ++ le_bytes 9 ++ le_bytes 1 ++ hello)
         (Z.of_nat (length [x2a])) None) = Returns (r', (d, e)) /\
    e = Some ErrNotEnoughBytes /\ d = [].
Proof.
  destruct (Slice_total_on_sound_header [x2a] (le_bytes 9) (le_bytes 1) 9 1 hello)
    as (r' & d & e & H1 & _ & H3).
  - reflexivity.
  - reflexivity.
  - vm_compute. reflexivity.
  - vm_compute. reflexivity.
  - lia.
  - lia.
  - vm_compute. discriminate.
  - vm_compute. discriminate.
  - exists r', d, e. split; [exact H1|]. apply H3. vm_compute. reflexivity.
Defined.

(** ** Slices that are too short for the codec *)

(** X15. [fillInt64] and [readInt64] index the bytes 0 to 7 of the slice they
    are given: they panic with an index out of range exactly when it has
    fewer than eight bytes, and [fillInt64] leaves the bytes from index 8 on
    as they were. *)
Theorem codec_needs_eight_bytes n (s : list byte) :
  ((length s < 8)%nat <-> fillInt64 n s = Panics IndexOutOfRange) /\
  ((length s < 8)%nat <-> readInt64 s = Panics IndexOutOfRange) /\
  ((8 <= length s)%nat ->
     exists out, fillInt64 n s = Returns out /\
       length out = length s /\ drop 8 out = drop 8 s).
Proof.
  split; [|split].
  - split; [apply (fillInt64_short n s)|].
    intros H. destruct (Nat.lt_ge_cases (length s) 8) as [|Hge]; [assumption|].
    rewrite fillInt64_spec in H by exact Hge. discriminate.
  - split; [apply readInt64_short|].
    intros H. destruct (Nat.lt_ge_cases (length s) 8) as [|Hge]; [assumption|].
    exfalso. revert H.
    do 8 (destruct s as [|? s]; [simpl in Hge; lia|]).
    unfold readInt64. cbn [readInt64_loop lookup list_lookup]. discriminate.
  - intros Hge. rewrite fillInt64_spec by exact Hge. eexists.
    split; [reflexivity|]. split.
    + rewrite length_app, length_le_bytes, length_drop. lia.
    + rewrite (drop_app_length' (le_bytes n)) by reflexivity. reflexivity.
Qed.

Lemma codec_needs_eight_bytes_witness :
  exists out,
    fillInt64 1 (replicate 9 xff) = Returns out /\
    length out = length (replicate 9 xff) /\
    drop 8 out = drop 8 (replicate 9 xff).
Proof.
  apply (proj2 (proj2 (codec_needs_eight_bytes 1 (replicate 9 xff)))).
  simpl. lia.
Defined.

(** ** Prefixes that end at a frame boundary *)

Lemma frames_app pos A B :
  frames pos (A ++ B) =
  frames pos A ++ frames (pos + Z.of_nat (length (frames pos A))) B.
Proof.
  revert pos. induction A as [|[data align] A IH]; intros pos.
  - cbn. rewrite Z.add_0_r. reflexivity.
  - cbn [app frames]. rewrite IH, <- app_assoc, length_app. do 3 f_equal. lia.
Qed.

(** X16. The writer never goes back over what it wrote and the stream has no
    trailer: the buffer after the first [j] of a sequence of blocks is a
    prefix of the buffer after all of them, and a slicer over that prefix
    returns the first [j] payloads and then reports the end of the stream,
    as for a complete stream. *)
Theorem prefix_at_frame_boundary (blocks : list (list byte * Z)) (j : nat) :
  Forall (fun b => in_int64 b.2) blocks ->
  Z.of_nat (length (frames 0 blocks)) <= max_int64 ->
  exists w wj r,
    WriteAll blocks (ByteBlockWriter.NewByteBlockWriter ([] : Buffer)) =
      Returns (w, replicate (length blocks) None) /\
    WriteAll (take j blocks) (ByteBlockWriter.NewByteBlockWriter ([] : Buffer)) =
      Returns (wj, replicate (length (take j blocks)) None) /\
    ByteBlockWriter.writer wj =
      take (length (ByteBlockWriter.writer wj)) (ByteBlockWriter.writer w) /\
    SliceN (length (take j blocks))
      (ByteBlockSlicer.NewByteBlockSlicer
         (take (length (ByteBlockWriter.writer wj)) (ByteBlockWriter.writer w))) =
      Returns (r, (fun b => (b.1, None)) <$> take j blocks) /\
    ByteBlockSlicer.Slice r = Returns (r, ([], Some EOF)).
Proof.
  intros Ha Hb.
  pose proof (frames_take_le 0 blocks j) as Hle.
  destruct (WriteAll_fresh blocks Ha Hb) as (w & R & Sw).
  destruct (WriteAll_fresh (take j blocks) (Forall_take _ _ _ Ha) ltac:(lia))
    as (wj & Rj & Sj).
  assert (Hp : ByteBlockWriter.writer wj =
               take (length (ByteBlockWriter.writer wj)) (ByteBlockWriter.writer w)).
  { rewrite Sw, Sj. rewrite <- (take_drop j blocks) at 3.
    rewrite frames_app, take_app_length. reflexivity. }
  pose proof (SliceN_frames (take j blocks) [] [] (Forall_take _ _ _ Ha)) as HS.
  cbn zeta in HS. cbn [app length] in HS. change (Z.of_nat 0) with 0 in HS.
  rewrite app_nil_r, Z.add_0_l in HS. specialize (HS ltac:(lia)).
  eexists w, wj, _. split; [exact R|]. split; [exact Rj|]. split; [exact Hp|].
  rewrite <- Hp, Sj. unfold ByteBlockSlicer.NewByteBlockSlicer.
  split; [exact HS|].
  unfold ByteBlockSlicer.Slice. cbn. rewrite len64_id by lia.
  rewrite Z.leb_refl. reflexivity.
Qed.

Lemma prefix_at_frame_boundary_witness :
  exists w wj r,
    WriteAll test_blocks (ByteBlockWriter.NewByteBlockWriter ([] : Buffer)) =
      Returns (w, replicate (length test_blocks) None) /\
    WriteAll (take 2 test_blocks) (ByteBlockWriter.NewByteBlockWriter ([] : Buffer)) =
      Returns (wj, replicate (length (take 2 test_blocks)) None) /\
    ByteBlockWriter.writer wj =
      take (length (ByteBlockWriter.writer wj)) (ByteBlockWriter.writer w) /\
    SliceN (length (take 2 test_blocks))
      (ByteBlockSlicer.NewByteBlockSlicer
         (take (length (ByteBlockWriter.writer wj)) (ByteBlockWriter.writer w))) =
      Returns (r, (fun b => (b.1, None)) <$> take 2 test_blocks) /\
    ByteBlockSlicer.Slice r = Returns (r, ([], Some EOF)).
Proof.
  apply (prefix_at_frame_boundary test_blocks 2).
  - unfold test_blocks.
    repeat constructor; unfold in_int64, min_int64, max_int64; simpl; lia.
  - vm_compute. discriminate.
Defined.

(** ** The byte counter *)

(** X17. Over a bytes.Buffer, after any sequence of calls that returns,
    failing calls included, [numBytesWritten] is the length of the buffer
    (modulo 2^64, and exactly while the length fits an int64), and whatever
    calls follow only append to the buffer. *)
Theorem counter_follows_buffer (cs : list call) (w : ByteBlockWriter.t Buffer) :
  do_calls cs (ByteBlockWriter.NewByteBlockWriter ([] : Buffer)) = Returns w ->
  ByteBlockWriter.numBytesWritten w =
    wrap64 (Z.of_nat (length (ByteBlockWriter.writer w))) /\
  (Z.of_nat (length (ByteBlockWriter.writer w)) <= max_int64 ->
     ByteBlockWriter.numBytesWritten w = Z.of_nat (length (ByteBlockWriter.writer w))) /\
  (forall cs' w', do_calls cs' w = Returns w' ->
     exists added, ByteBlockWriter.writer w' = ByteBlockWriter.writer w ++ added).
Proof.
  intros R.
  destruct (do_calls_tracks cs _ w (NewByteBlockWriter_tracks [] eq_refl) R)
    as [T _].
  split; [apply T|]. split.
  - intros Hb. destruct T as [_ ->]. apply wrap64_id.
    unfold in_int64, min_int64, max_int64 in *. lia.
  - intros cs' w' R'. apply (do_calls_tracks cs' w w' T R').
Qed.

Lemma counter_follows_buffer_witness :
  exists w : ByteBlockWriter.t Buffer,
    do_calls [CallWrite hello 8; CallNewBlock 4 2; CallAppend world]
      (ByteBlockWriter.NewByteBlockWriter ([] : Buffer)) = Returns w /\
    ByteBlockWriter.numBytesWritten w =
      wrap64 (Z.of_nat (length (ByteBlockWriter.writer w))).
Proof.
  pose (w0 := ByteBlockWriter.NewByteBlockWriter ([] : Buffer)).
  pose (w := match do_calls [CallWrite hello 8; CallNewBlock 4 2; CallAppend world] w0 with
             | Returns w => w
             | Panics _ => w0
             end).
  assert (R : do_calls [CallWrite hello 8; CallNewBlock 4 2; CallAppend world] w0 =
              Returns w) by (vm_compute; reflexivity).
  exists w. split; [exact R|].
  exact (proj1 (counter_follows_buffer _ w R)).
Defined.

(** ** What reaches a sink that fails *)

Lemma NewBlock_refused {S : Type} `{!IoWriter S} (w : ByteBlockWriter.t S) align len :
  ByteBlockWriter.err w = None -> 0 < ByteBlockWriter.numBytesLeft w ->
  ByteBlockWriter.NewBlock align len w =
    Returns (ByteBlockWriter.set_err (Some ErrNewBlockBeforeFinish) w,
             Some ErrNewBlockBeforeFinish).
Proof.
  intros He Hl. unfold ByteBlockWriter.NewBlock. rewrite He.
  destruct (Z.ltb_spec 0 (ByteBlockWriter.numBytesLeft w)); [reflexivity|lia].
Qed.

Lemma Append_refused {S : Type} `{!IoWriter S} (w : ByteBlockWriter.t S) data :
  ByteBlockWriter.err w = None -> ByteBlockWriter.numBytesLeft w < len64 data ->
  ByteBlockWriter.Append data w =
    (ByteBlockWriter.set_err (Some ErrWriteMoreThanRequested) w,
     Some ErrWriteMoreThanRequested).
Proof.
  intros He Hl. unfold ByteBlockWriter.Append. rewrite He.
  destruct (Z.ltb_spec (ByteBlockWriter.numBytesLeft w) (len64 data)); [reflexivity|lia].
Qed.

Section watched.
Context {S : Type} `{!IoWriter S}.
Hypothesis contract : obeys_contract S.
Import ByteBlockWriter.
Implicit Types wr : ByteBlockWriter.t (Recorded S).
Implicit Types wb : ByteBlockWriter.t Buffer.

Lemma Recorded_io (s : Recorded S) p s' n e :
  io_write s.1 p = (s', (n, e)) ->
  io_write s p = ((s', s.2 ++ take (Z.to_nat n) p), (n, e)).
Proof.
  intros H.
  transitivity (let '(s0, (n0, e0)) := io_write s.1 p in
                ((s0, s.2 ++ take (Z.to_nat n0) p), (n0, e0))); [reflexivity|].
  rewrite H. reflexivity.
Qed.

Lemma take_drop_app (n : nat) (l k : list byte) : take n l ++ drop n l ++ k = l ++ k.
Proof. rewrite app_assoc, take_drop. reflexivity. Qed.

Lemma take_all (l : list byte) : take (Z.to_nat (Z.of_nat (length l))) l = l.
Proof. rewrite Nat2Z.id. apply take_ge. lia. Qed.

Lemma NewBlock_behind wr wb wb' eb align len :
  tracks wb -> behind wr wb ->
  NewBlock align len wb = Returns (wb', eb) ->
  exists wr' er, NewBlock align len wr = Returns (wr', er) /\ behind wr' wb'.
Proof.
  intros T B HN. unfold behind in B. destruct (err wr) as [e0|] eqn:He.
  { rewrite (NewBlock_latched wr e0 _ _ He). eexists _, _. split; [reflexivity|].
    unfold behind. rewrite He. destruct B as [rest Hr].
    destruct (NewBlock_tracks _ _ _ _ _ T HN) as (_ & a & Sa).
    exists (rest ++ a). rewrite Sa, Hr, app_assoc. reflexivity. }
  subst wb. destruct T as [Hs _]. cbn [map_writer stub] in Hs.
  destruct (Z.lt_ge_cases 0 (numBytesLeft wr)) as [Hopen|Hl].
  { rewrite (NewBlock_refused (map_writer snd wr) align len He Hopen) in HN.
    injection HN as <- <-. rewrite (NewBlock_refused wr align len He Hopen).
    eexists _, _. split; [reflexivity|].
    unfold behind. cbn. exists []. rewrite app_nil_r. reflexivity. }
  set (off' := alignOffset align (add64 (add64 (numBytesWritten wr) 8) 8)).
  destruct (Z.lt_ge_cases off' 0) as [Hneg|Hpos].
  { rewrite (NewBlock_Buffer_negative_offset (map_writer snd wr) align len Hs He Hl Hneg)
      in HN. discriminate. }
  rewrite (NewBlock_accepted (map_writer snd wr) align len off'
             ((writer wr).2 ++ le_bytes len)
             (((writer wr).2 ++ le_bytes len) ++ le_bytes off')
             ((((writer wr).2 ++ le_bytes len) ++ le_bytes off') ++
                replicate (Z.to_nat off') x00)
             8 8 (Z.of_nat (length (replicate (Z.to_nat off') x00)))
             He Hl Hs eq_refl eq_refl eq_refl Hpos eq_refl) in HN.
  injection HN as <- <-.
  (* Length *)
  destruct (io_write (writer wr).1 (le_bytes len)) as [s1 [n1 e1]] eqn:W1.
  pose proof (Recorded_io (writer wr) _ _ _ _ W1) as R1.
  destruct e1 as [e1|].
  { rewrite (NewBlock_fails_length wr e1 align len _ _ He Hl Hs R1).
    eexists _, _. split; [reflexivity|]. unfold behind. cbn.
    exists (drop (Z.to_nat n1) (le_bytes len) ++ le_bytes off' ++
            replicate (Z.to_nat off') x00).
    rewrite <- !app_assoc, take_drop_app. reflexivity. }
  pose proof (contract _ _ _ _ W1) as E1. rewrite length_le_bytes in E1.
  change (Z.of_nat 8) with 8 in E1. subst n1.
  change (take (Z.to_nat 8) (le_bytes len)) with (le_bytes len) in R1.
  (* Offset *)
  destruct (io_write s1 (le_bytes off')) as [s2 [n2 e2]] eqn:W2.
  pose proof (Recorded_io (s1, (writer wr).2 ++ le_bytes len) _ _ _ _ W2) as R2.
  cbn [fst snd] in R2.
  destruct e2 as [e2|].
  { rewrite (NewBlock_fails_offset wr e2 align len off' _ _ _ _ He Hl Hs R1 eq_refl R2).
    eexists _, _. split; [reflexivity|]. unfold behind. cbn.
    exists (drop (Z.to_nat n2) (le_bytes off') ++ replicate (Z.to_nat off') x00).
    rewrite <- !app_assoc, take_drop_app. reflexivity. }
  pose proof (contract _ _ _ _ W2) as E2. rewrite length_le_bytes in E2.
  change (Z.of_nat 8) with 8 in E2. subst n2.
  change (take (Z.to_nat 8) (le_bytes off')) with (le_bytes off') in R2.
  (* Padding *)
  destruct (io_write s2 (replicate (Z.to_nat off') x00)) as [s3 [n3 e3]] eqn:W3.
  pose proof (Recorded_io (s2, ((writer wr).2 ++ le_bytes len) ++ le_bytes off')
                _ _ _ _ W3) as R3.
  cbn [fst snd] in R3.
  destruct e3 as [e3|].
  { rewrite (NewBlock_fails_padding wr e3 align len off' _ _ _ _ _ _
               He Hl Hs R1 eq_refl R2 Hpos R3).
    eexists _, _. split; [reflexivity|]. unfold behind. cbn.
    exists (drop (Z.to_nat n3) (replicate (Z.to_nat off') x00)).
    rewrite <- !app_assoc, take_drop. reflexivity. }
  pose proof (contract _ _ _ _ W3) as E3. subst n3. rewrite take_all in R3.
  rewrite (NewBlock_accepted wr align len off' _ _ _ _ _ _
             He Hl Hs R1 eq_refl R2 Hpos R3).
  eexists _, _. split; [reflexivity|]. unfold behind. cbn. reflexivity.
Qed.

Lemma Append_behind wr wb wb' eb data :
  tracks wb -> behind wr wb ->
  Append data wb = (wb', eb) ->
  exists wr' er, Append data wr = (wr', er) /\ behind wr' wb'.
Proof.
  intros T B HA. unfold behind in B. destruct (err wr) as [e0|] eqn:He.
  { rewrite (Append_latched wr e0 _ He). eexists _, _. split; [reflexivity|].
    unfold behind. rewrite He. destruct B as [rest Hr].
    destruct (Append_tracks _ _ _ _ T HA) as (_ & a & Sa).
    exists (rest ++ a). rewrite Sa, Hr, app_assoc. reflexivity. }
  subst wb.
  destruct (Z.lt_ge_cases (numBytesLeft wr) (len64 data)) as [Hover|Hl].
  { rewrite (Append_refused (map_writer snd wr) data He Hover) in HA.
    injection HA as <- <-. rewrite (Append_refused wr data He Hover).
    eexists _, _. split; [reflexivity|].
    unfold behind. cbn. exists []. rewrite app_nil_r. reflexivity. }
  rewrite (Append_accepted (map_writer snd wr) data ((writer wr).2 ++ data)
             (Z.of_nat (length data)) He Hl eq_refl) in HA.
  injection HA as <- <-.
  destruct (io_write (writer wr).1 data) as [s1 [n1 e1]] eqn:W1.
  pose proof (Recorded_io (writer wr) _ _ _ _ W1) as R1.
  destruct e1 as [e1|].
  { rewrite (Append_fails wr e1 data _ _ He Hl R1).
    eexists _, _. split; [reflexivity|]. unfold behind. cbn.
    exists (drop (Z.to_nat n1) data). rewrite <- app_assoc, take_drop. reflexivity. }
  pose proof (contract _ _ _ _ W1) as E1. subst n1. rewrite take_all in R1.
  rewrite (Append_accepted wr data _ _ He Hl R1).
  eexists _, _. split; [reflexivity|]. unfold behind. cbn. reflexivity.
Qed.

Lemma Write_behind wr wb wb' eb data align :
  tracks wb -> behind wr wb ->
  Write data align wb = Returns (wb', eb) ->
  exists wr' er, Write data align wr = Returns (wr', er) /\ behind wr' wb'.
Proof.
  intros T B. rewrite !Write_unfold.
  destruct (NewBlock align (len64 data) wb) as [[wb1 eb1]|] eqn:N; [|discriminate].
  cbn. intros [= A].
  destruct (NewBlock_behind wr wb wb1 eb1 align _ T B N) as (wr1 & er1 & Nr & B1).
  destruct (NewBlock_tracks _ _ _ _ _ T N) as (T1 & _).
  destruct (Append_behind wr1 wb1 wb' eb data T1 B1 A) as (wr' & er & Ar & B').
  rewrite Nr. cbn. rewrite Ar. eexists _, _. split; [reflexivity|exact B'].
Qed.

Lemma do_call_behind c wr wb wb' eb :
  tracks wb -> behind wr wb ->
  do_call c wb = Returns (wb', eb) ->
  exists wr' er, do_call c wr = Returns (wr', er) /\ behind wr' wb'.
Proof.
  intros T B. destruct c; cbn [do_call].
  - apply NewBlock_behind; assumption.
  - intros [= A]. destruct (Append_behind wr wb wb' eb data T B A) as (wr' & er & Ar & B').
    rewrite Ar. eexists _, _. split; [reflexivity|exact B'].
  - intros [= A]. destruct (Append_behind wr wb wb' eb data T B A) as (wr' & er & Ar & B').
    unfold AppendString. rewrite Ar. eexists _, _. split; [reflexivity|exact B'].
  - apply Write_behind; assumption.
  - apply (Write_behind wr wb wb' eb data align T B).
Qed.

Lemma do_calls_behind cs wr wb wb' :
  tracks wb -> behind wr wb ->
  do_calls cs wb = Returns wb' ->
  exists wr', do_calls cs wr = Returns wr' /\ behind wr' wb'.
Proof.
  revert wr wb. induction cs as [|c cs IH]; intros wr wb T B R.
  - injection R as <-. exists wr. split; [reflexivity|exact B].
  - cbn [do_calls] in *.
    destruct (do_call c wb) as [[wb1 eb1]|] eqn:C; [|discriminate]. cbn in R.
    destruct (do_call_behind c wr wb wb1 eb1 T B C) as (wr1 & er1 & Cr & B1).
    destruct (do_call_tracks _ _ _ _ T C) as (T1 & _).
    destruct (IH wr1 wb1 T1 B1 R) as (wr' & Rr & B').
    rewrite Cr. cbn. exists wr'. split; [exact Rr|exact B'].
Qed.

End watched.

Lemma LimitedBuffer_obeys_contract : obeys_contract LimitedBuffer.
Proof.
  intros s s' p n. unfold io_write, LimitedBuffer_write.
  destruct (length p <=? lb_room s)%nat; [|discriminate].
  intros [= _ <-]. reflexivity.
Qed.

(** X18. Over any sink that obeys the io.Writer contract (no error only for
    a whole write): when a sequence of calls returns over an unfailing
    bytes.Buffer, it returns over the sink too, and the bytes the sink
    reported as taken are a prefix of the buffer, the whole buffer when no
    error is latched.  A failing sink holds the beginning of the stream,
    never anything else. *)
Theorem failing_sink_holds_a_prefix {S : Type} `{!IoWriter S} (s0 : S)
    (cs : list call) (wb : ByteBlockWriter.t Buffer) :
  obeys_contract S ->
  do_calls cs (ByteBlockWriter.NewByteBlockWriter ([] : Buffer)) = Returns wb ->
  exists (wr : ByteBlockWriter.t (Recorded S)) rest,
    do_calls cs (ByteBlockWriter.NewByteBlockWriter ((s0, []) : Recorded S)) = Returns wr /\
    ByteBlockWriter.writer wb = (ByteBlockWriter.writer wr).2 ++ rest /\
    (ByteBlockWriter.err wr = None ->
       rest = [] /\ ByteBlockWriter.err wb = None /\
       ByteBlockWriter.numBytesWritten wb = ByteBlockWriter.numBytesWritten wr).
Proof.
  intros C R.
  destruct (do_calls_behind C cs
              (ByteBlockWriter.NewByteBlockWriter ((s0, []) : Recorded S))
              (ByteBlockWriter.NewByteBlockWriter ([] : Buffer)) wb)
    as (wr & Rr & B).
  - apply NewByteBlockWriter_tracks. reflexivity.
  - reflexivity.
  - exact R.
  - unfold behind in B. destruct (ByteBlockWriter.err wr) as [e|] eqn:He.
    + destruct B as [rest Hr]. exists wr, rest. split; [exact Rr|].
      split; [exact Hr|]. congruence.
    + subst wb. exists wr, []. split; [exact Rr|]. cbn. rewrite app_nil_r.
      split; [reflexivity|]. intros _. repeat split. exact He.
Qed.

Lemma failing_sink_holds_a_prefix_witness :
  exists (wb : ByteBlockWriter.t Buffer) (wr : ByteBlockWriter.t (Recorded LimitedBuffer)) rest,
    do_calls [CallWrite hello 4; CallWrite world 8]
      (ByteBlockWriter.NewByteBlockWriter ([] : Buffer)) = Returns wb /\
    do_calls [CallWrite hello 4; CallWrite world 8]
      (ByteBlockWriter.NewByteBlockWriter
         ((mkLimited [] 20, []) : Recorded LimitedBuffer)) = Returns wr /\
    ByteBlockWriter.writer wb = (ByteBlockWriter.writer wr).2 ++ rest.
Proof.
  pose (w0 := ByteBlockWriter.NewByteBlockWriter ([] : Buffer)).
  pose (wb := match do_calls [CallWrite hello 4; CallWrite world 8] w0 with
              | Returns w => w
              | Panics _ => w0
              end).
  assert (R : do_calls [CallWrite hello 4; CallWrite world 8] w0 = Returns wb)
    by (vm_compute; reflexivity).
  destruct (failing_sink_holds_a_prefix (mkLimited [] 20) _ wb
              LimitedBuffer_obeys_contract R)
    as (wr & rest & H1 & H2 & _).
  exists wb, wr, rest. split; [exact R|]. split; [exact H1|exact H2].
Defined.
